(** * whois: zone resolution, request construction and the fetch path

    A shallow embedding of the Go package [whois] (whois.go, server.go,
    client.go).  Go strings are byte strings and are modelled by [string];
    byte slices by [list byte]; Go maps by [gmap]; a run-time panic, which
    Go raises on an out-of-range index or on a call through a nil function
    value, is an explicit outcome. *)

From Stdlib Require Import ZArith Ascii String List Lia.
From Stdlib.Strings Require Import Byte.
From stdpp Require Import base option list gmap strings sorting.

Local Open Scope Z_scope.

(** ** Outcomes of a Go call *)

(** A call either returns, panics, or never comes back; the last case is
    what a loop that ran out of iterations ([OutOfFuel]) stands for. *)
Inductive outcome (A : Type) : Type :=
  | Ret (a : A)
  | Panic (msg : string)
  | OutOfFuel.
Arguments Ret {A} a.
Arguments Panic {A} msg.
Arguments OutOfFuel {A}.

Definition index_out_of_range : string := "runtime error: index out of range".
Definition nil_dereference : string :=
  "runtime error: invalid memory address or nil pointer dereference".

Global Instance outcome_ret : MRet outcome := fun A a => Ret a.
Global Instance outcome_bind : MBind outcome := fun A B f m =>
  match m with
  | Ret a => f a
  | Panic msg => Panic msg
  | OutOfFuel => OutOfFuel
  end.

(** [a[i]] on a slice: a panic when [i] is out of range. *)
Definition index {A} (a : list A) (i : nat) : outcome A :=
  match a !! i with
  | Some x => Ret x
  | None => Panic index_out_of_range
  end.

(** ** Go errors *)

(** The [error] values this package creates, compares or classifies:
    the sentinel [io.EOF], [errors.New] strings, [net.Error] values with
    their [Timeout()] and [Temporary()] flags, and [syscall.Errno]. *)
Inductive error : Type :=
  | EOF
  | errorString (s : string)
  | netError (msg : string) (timeout temporary : bool)
  | Errno (n : Z).

Global Instance error_eq_dec : EqDecision error.
Proof. solve_decision. Defined.

Definition errors_New (s : string) : error := errorString s.

Definition is_timeout (e : error) : bool :=
  match e with
  | netError _ t _ => t
  | _ => false
  end.

(** ** Package [strings] *)

Module strings.

(** [genSplit sep n s]: cut [s] at the first [n] occurrences of the byte
    [sep]; the piece after the last cut is kept whole.  It always returns
    at least one piece. *)
Fixpoint genSplit (sep : ascii) (n : nat) (s : string) : list string :=
  match s with
  | EmptyString => [EmptyString]
  | String c s' =>
      if Ascii.eqb c sep then
        match n with
        | O => [s]
        | S n' => EmptyString :: genSplit sep n' s'
        end
      else
        match genSplit sep n s' with
        | [] => [String c EmptyString]
        | l :: ls => String c l :: ls
        end
  end.

(** [Count s sep] for a one-byte separator. *)
Fixpoint Count (s : string) (sep : ascii) : nat :=
  match s with
  | EmptyString => O
  | String c s' => (if Ascii.eqb c sep then 1 else 0) + Count s' sep
  end%nat.

(** [strings.SplitN(s, sep, n)] for a one-byte separator, which is what
    every call site of the package passes: [n > 0] gives at most [n]
    pieces, [n = 0] gives nil, [n < 0] gives all pieces. *)
Definition SplitN (s : string) (sep : ascii) (n : Z) : list string :=
  if n =? 0 then []
  else if n <? 0 then genSplit sep (Count s sep) s
  else genSplit sep (Z.to_nat (n - 1)) s.

(** [strings.Split(s, sep)] is [SplitN(s, sep, -1)]. *)
Definition Split (s : string) (sep : ascii) : list string := SplitN s sep (-1).

(** [strings.Join(elems, sep)]. *)
Fixpoint Join (elems : list string) (sep : string) : string :=
  match elems with
  | [] => EmptyString
  | [e] => e
  | e :: rest => e +:+ sep +:+ Join rest sep
  end.

(** [strings.ToLower] on ASCII letters. *)
Definition lower_ascii (c : ascii) : ascii :=
  let n := nat_of_ascii c in
  if ((65 <=? n) && (n <=? 90))%nat then ascii_of_nat (n + 32) else c.

Fixpoint ToLower (s : string) : string :=
  match s with
  | EmptyString => EmptyString
  | String c s' => String (lower_ascii c) (ToLower s')
  end.

(** Whether the byte [c] occurs in [s]. *)
Fixpoint ContainsByte (s : string) (c : ascii) : bool :=
  match s with
  | EmptyString => false
  | String c' s' => Ascii.eqb c' c || ContainsByte s' c
  end.

End strings.

(** ** Package [net/url]: query values *)

Module url.

(** [shouldEscape(c, encodeQueryComponent)]: letters, digits and the
    marks [-], [_], [.], [~] are kept, every other byte is escaped. *)
Definition shouldEscape (c : ascii) : bool :=
  let n := nat_of_ascii c in
  negb (((97 <=? n) && (n <=? 122)) || ((65 <=? n) && (n <=? 90))
        || ((48 <=? n) && (n <=? 57))
        || (n =? 45) || (n =? 95) || (n =? 46) || (n =? 126))%nat.

Definition upperhex (n : nat) : ascii :=
  nth n (list_ascii_of_string "0123456789ABCDEF") "0"%char.

(** [QueryEscape]: a space becomes [+], an escaped byte [%XX]. *)
Fixpoint QueryEscape (s : string) : string :=
  match s with
  | EmptyString => EmptyString
  | String c s' =>
      if Ascii.eqb c " " then String "+" (QueryEscape s')
      else if shouldEscape c then
        let n := nat_of_ascii c in
        String "%" (String (upperhex (n / 16)) (String (upperhex (n mod 16))
          (QueryEscape s')))
      else String c (QueryEscape s')
  end%nat.

(** [url.Values] is [map[string][]string]. *)
Abbreviation Values := (gmap string (list string)).

(** [v.Set(key, value)] replaces whatever was stored under [key]. *)
Definition Set_ (v : Values) (key value : string) : Values :=
  <[key := [value]]> v.

(** [sort.Strings]: Go compares strings byte by byte. *)
Definition sortStrings (keys : list string) : list string :=
  merge_sort String.le keys.

(** [v.Encode()]: [key=value] pairs in the order of the sorted keys,
    joined by [&], both sides query-escaped. *)
Definition Encode (v : Values) : string :=
  foldl (fun buf k =>
           let vs := default [] (v !! k) in
           let keyEscaped := QueryEscape k in
           foldl (fun buf val =>
                    (if (0 <? String.length buf)%nat then buf +:+ "&" else buf)
                      +:+ keyEscaped +:+ "=" +:+ QueryEscape val)
                 buf vs)
        EmptyString (sortStrings (map fst (map_to_list v))).

End url.

(** ** Requests and servers *)

(** The request a resolution builds and a fetch consumes. *)
Record Request : Type := mkRequest {
  Query : string;
  Host : string;
  URL : string;
  Body : list Byte.byte;
}.

Definition set_Host (h : string) (req : Request) : Request :=
  mkRequest (Query req) h (URL req) (Body req).
Definition set_URL (u : string) (req : Request) : Request :=
  mkRequest (Query req) (Host req) u (Body req).
Definition set_Body (b : list Byte.byte) (req : Request) : Request :=
  mkRequest (Query req) (Host req) (URL req) b.

(** server.go: a server is its [Resolve] function, which changes the
    request in place and returns an error. *)
Record Server : Type := mkServer {
  Resolve_ : Request -> outcome (Request * option error);
}.

(** server.go, [register]: every name is bound to the server. *)
Definition register (server : Server) (names : list string)
    (Servers : gmap string Server) : gmap string Server :=
  foldl (fun m name => <[name := server]> m) Servers names.

(** *** The Cenpac server (whois.go) *)

Definition cenpac_form : string := "http://cenpac.net.nr/dns/whois.html?".

Definition Cenpac_Resolve (req : Request) : outcome (Request * option error) :=
  let labels := strings.SplitN (Query req) "." 2 in
  let values : url.Values := ∅ in
  l0 ← index labels 0;
  let values := url.Set_ values "subdomain" l0 in
  l1 ← index labels 1;
  let values := url.Set_ values "tld" l1 in
  let req := set_URL (cenpac_form +:+ url.Encode values) req in
  let req := set_Body [] req in
  mret (req, None).

Definition Cenpac : Server := mkServer Cenpac_Resolve.

(** [init]: [register(&Cenpac{}, "cenpac.net.nr")]. *)
Definition init (Servers : gmap string Server) : gmap string Server :=
  register Cenpac ["cenpac.net.nr"] Servers.

(** ** Resolution (whois.go) *)

Section Resolution.

(** The zone table, the service registry, the default server and the
    request constructor are declared in files of the package that are not
    part of this development; [Resolve] is verified for all of them. *)
Variable zones : gmap string string.
Variable servers : gmap string Server.
Variable defaultServer : Server.
Variable NewRequest : string -> Request.

(** [req.Host, ok = zones[key]]: a missing key gives the zero value. *)
Definition zones_lookup (key : string) (req : Request) : Request * bool :=
  match zones !! key with
  | Some h => (set_Host h req, true)
  | None => (set_Host EmptyString req, false)
  end.

(** [for i := 0; i < len(labels) && !ok; i++ { ... }]; [todo] is
    [len(labels) - i]. *)
Fixpoint scan (labels : list string) (todo i : nat) (st : Request * bool)
    : Request * bool :=
  match todo with
  | O => st
  | S todo' =>
      if negb (snd st)
      then scan labels todo' (S i)
             (zones_lookup (strings.Join (drop i labels) ".") (fst st))
      else st
  end.

Definition no_server (q : string) : error :=
  errors_New ("No whois server found for " +:+ q).

(** [srv, ok := servers[req.Host]; if !ok { srv = defaultServer }]. *)
Definition server_for (host : string) : Server :=
  default defaultServer (servers !! host).

(** [srv.Resolve(req); return req, nil]: the error of the server's
    [Resolve] is dropped. *)
Definition customize (req : Request) : outcome (Request * option error) :=
  r ← Resolve_ (server_for (Host req)) req;
  mret (fst r, None).

Definition Resolve (q : string) : outcome (Request * option error) :=
  let req := NewRequest q in
  let labels := strings.Split q "." in
  let '(req, ok) := scan labels (length labels) 0 (req, false) in
  if negb ok then mret (req, Some (no_server q))
  else customize req.

End Resolution.

(** *** Instances of the missing declarations *)

Definition CRLF : string := String "013" (String "010" EmptyString).

(** Modelled from the spec: [NewRequest] is declared in a file that is not
    part of this development; a Request is "constructed once per query",
    with its other fields at their zero values. *)
Definition NewRequest_spec (q : string) : Request :=
  mkRequest q EmptyString EmptyString [].

(** Modelled from the spec: the default server is declared in a file that is
    not part of this development; "the default Resolver leaves URL empty and
    sets Body to the raw query line", [Query + CRLF]. *)
Definition defaultServer_spec : Server :=
  mkServer (fun req =>
    mret (set_Body (list_byte_of_string (Query req +:+ CRLF)) req, None)).

(** Reading the query parameters back from a URL: the part after the first
    [?], cut at [&], each piece cut at its first [=]. *)
Definition query_params (u : string) : list (string * string) :=
  match strings.SplitN u "?" 2 with
  | [_; q] =>
      map (fun kv => match strings.SplitN kv "=" 2 with
                     | [k; v] => (k, v)
                     | _ => (kv, EmptyString)
                     end)
          (strings.Split q "&")
  | _ => []
  end.

Definition query_param (u key : string) : option string :=
  (fun p => snd (snd p)) <$> list_find (fun kv => fst kv = key) (query_params u).

(** A zone table of two entries, a suffix and its parent. *)
Definition zones_bc : gmap string string :=
  {[ "b.c" := "whois.nic.b.c"; "c" := "whois.nic.c" ]}.

(** A zone table that sends the [nr] zone to the Cenpac host. *)
Definition zones_nr : gmap string string :=
  {[ "nr" := "cenpac.net.nr" ]}.

(** ** The world a fetch runs in *)

(** The remote ends: what sits behind a TCP connection and behind the body
    of an HTTP response. *)
Class NetTypes : Type := {
  Peer : Type;
  HBody : Type;
}.

(** A parsed URL, as far as this package looks into it. *)
Record ParsedURL : Type := mkURL {
  Scheme : string;
  uHost : string;
  uRaw : string;
}.

(** [http.Header] is [map[string][]string]. *)
Abbreviation Header := (gmap string (list string)).

Record HttpRequest : Type := mkHttpRequest {
  Method : string;
  rURL : ParsedURL;
  rHeader : Header;
  rBody : option (list Byte.byte);
}.

(** How [logError] classifies an error on standard error. *)
Inductive errClass : Type :=
  | ClsErrno (n : Z)
  | ClsNet (timeout temporary : bool)
  | ClsUnknown.

(** What a fetch does to the outside, in order. *)
Inductive event : Type :=
  | EvDial (network address : string)
  | EvWrite (b : list Byte.byte)
  | EvClose
  | EvDo (hreq : HttpRequest)
  | EvStderr (c : errClass) (e : error).

(** The clock, in nanoseconds as [time.Duration] counts, and the events so
    far. *)
Record World : Type := mkWorld {
  now : Z;
  trace : list event;
}.

(** A computation of the platform sees the clock only; a computation of
    the package also records events. *)
Definition T (A : Type) : Type := Z -> outcome A * Z.
Definition M (A : Type) : Type := World -> outcome A * World.

Global Instance T_ret : MRet T := fun A a t => (Ret a, t).
Global Instance T_bind : MBind T := fun A B f m t =>
  match m t with
  | (Ret a, t') => f a t'
  | (Panic msg, t') => (Panic msg, t')
  | (OutOfFuel, t') => (OutOfFuel, t')
  end.

Global Instance M_ret : MRet M := fun A a w => (Ret a, w).
Global Instance M_bind : MBind M := fun A B f m w =>
  match m w with
  | (Ret a, w') => f a w'
  | (Panic msg, w') => (Panic msg, w')
  | (OutOfFuel, w') => (OutOfFuel, w')
  end.

(** A platform computation run by the package: the clock moves, the
    events stay. *)
Definition lift {A} (m : T A) : M A :=
  fun w => (fst (m (now w)), mkWorld (snd (m (now w))) (trace w)).

Definition emit (e : event) : M unit :=
  fun w => (Ret tt, mkWorld (now w) (trace w ++ [e])).
Definition panic {A} (msg : string) : M A := fun w => (Panic msg, w).

Definition time_Now : T Z := fun t => (Ret t, t).
Definition sleep_until (d : Z) : T unit := fun t => (Ret tt, Z.max t d).
Definition elapse (d : N) : T unit := fun t => (Ret tt, t + Z.of_N d).
Definition block_forever {A} : T A := fun t => (OutOfFuel, t).

(** [io.Reader]: [Read(p)] with [len(p) = n] gives the bytes stored in [p],
    the error and the reader afterwards. *)
Class Reader (R : Type) : Type :=
  Read : R -> nat -> T (list Byte.byte * option error * R).

(** The contract of [io.Reader]: a read stores at most [len(p)] bytes. *)
Definition ReaderFits (R : Type) `{Reader R} : Prop :=
  forall r n t bs e r' t',
    Read r n t = (Ret (bs, e, r'), t') -> (length bs <= n)%nat.

Definition timeoutError : error := netError "i/o timeout" true true.

(** A computation that adds only events of one kind to the trace, whatever
    its outcome. *)
Definition only {A} (P : event -> Prop) (m : M A) : Prop :=
  forall w o w', m w = (o, w') ->
    exists evs, trace w' = trace w ++ evs /\ Forall P evs.

Section Net.

Context `{NetTypes}.

(** A TCP connection: the remote end and the deadline set on it. *)
Record Conn : Type := mkConn {
  peer : Peer;
  deadline : option Z;
}.

Definition DialFunc : Type := string -> string -> T (Conn + error).

(** [http.Transport], [http.Client] and the package's [Client]; a nil
    function value is [None]. *)
Record Transport : Type := mkTransport {
  Proxy : option ParsedURL;
  TLSHandshakeTimeout : Z;
  ResponseHeaderTimeout : Z;
  tDial : option DialFunc;
}.

Record HttpClient : Type := mkHttpClient {
  hTransport : Transport;
}.

Record Client : Type := mkClient {
  httpClient : HttpClient;
  dialFunc : option DialFunc;
}.

Record HttpResponse : Type := mkHttpResponse {
  hHeader : Header;
  hBody : HBody;
}.

(** What the remote end does while the client waits in a read, in a
    write or in a connect: nothing ever, or something after a delay. *)
Inductive ReadStep : Type :=
  | RSilent
  | RResponds (delay : N) (data : list Byte.byte) (err : option error) (p : Peer).

Inductive WriteStep : Type :=
  | WSilent
  | WDone (delay : N) (err : option error) (p : Peer).

Inductive ConnectStep : Type :=
  | CSilent
  | CDone (delay : N) (r : Peer + error).

Inductive SocksVersion : Type := SOCKS4 | SOCKS5.

(** The platform: the network, the standard library's URL parser and HTTP
    client, the socks package, and the content sniffer. *)
Class Platform : Type := {
  peer_read : Peer -> nat -> ReadStep;
  peer_write : Peer -> list Byte.byte -> WriteStep;
  net_connect : string -> string -> ConnectStep;
  hbody_read : HBody -> nat -> T (list Byte.byte * option error * HBody);
  url_Parse : string -> ParsedURL + error;
  http_Do : HttpClient -> HttpRequest -> T (HttpResponse + error);
  socks_DialSocksProxyTimeout : SocksVersion -> string -> Z -> DialFunc;
  sniff : list Byte.byte -> string;
  bufspace : nat -> nat;
}.

End Net.

(** ** Package [net/http]: header keys *)

Module textproto.

(** The bytes allowed in a header field name. *)
Definition validHeaderFieldByte (c : ascii) : bool :=
  let n := nat_of_ascii c in
  (((97 <=? n) && (n <=? 122)) || ((65 <=? n) && (n <=? 90))
   || ((48 <=? n) && (n <=? 57))
   || strings.ContainsByte "!#$%&'*+-.^_`|~" c)%nat.

Fixpoint allValid (s : string) : bool :=
  match s with
  | EmptyString => true
  | String c s' => validHeaderFieldByte c && allValid s'
  end.

Definition upper_ascii (c : ascii) : ascii :=
  let n := nat_of_ascii c in
  if ((97 <=? n) && (n <=? 122))%nat then ascii_of_nat (n - 32) else c.

(** The first letter and every letter after a hyphen in upper case, the
    others in lower case. *)
Fixpoint canonical (upper : bool) (s : string) : string :=
  match s with
  | EmptyString => EmptyString
  | String c s' =>
      let c' := if upper then upper_ascii c else strings.lower_ascii c in
      String c' (canonical (Ascii.eqb c' "-") s')
  end.

Definition CanonicalMIMEHeaderKey (s : string) : string :=
  if allValid s then canonical true s else s.

End textproto.

Definition Header_Add (h : Header) (key value : string) : Header :=
  let k := textproto.CanonicalMIMEHeaderKey key in
  <[k := default [] (h !! k) ++ [value]]> h.

Definition Header_Get (h : Header) (key : string) : string :=
  match h !! textproto.CanonicalMIMEHeaderKey key with
  | Some (v :: _) => v
  | _ => EmptyString
  end.

(** ** Responses *)

(** Modelled from the spec: the Response type, [NewResponse] and
    [DetectContentType] are declared in a file that is not part of this
    development.  A Response is "{ Query; Host; Body; ContentType }";
    detection is "if the transport supplied an explicit content-type
    header, trust it; otherwise sniff the body's first bytes". *)
Record Response : Type := mkResponse {
  resQuery : string;
  resHost : string;
  resBody : list Byte.byte;
  ContentType : string;
}.

Definition NewResponse (query host : string) : Response :=
  mkResponse query host [] EmptyString.

Definition set_resBody (b : list Byte.byte) (res : Response) : Response :=
  mkResponse (resQuery res) (resHost res) b (ContentType res).

(** ** client.go *)

(** [DefaultTimeout = 30 * time.Second], in nanoseconds. *)
Definition DefaultTimeout : Z := 30 * 1000000000.

(** [DefaultReadLimit = 1 << 20]. *)
Definition DefaultReadLimit : Z := Z.shiftl 1 20.

Section Fetching.

Context `{Platform}.

Definition DetectContentType (ct : string) (res : Response) : Response :=
  mkResponse (resQuery res) (resHost res) (resBody res)
    (if String.eqb ct EmptyString then sniff (resBody res) else ct).

(** *** Connections *)

Definition past (d : option Z) (t : Z) : bool :=
  match d with
  | Some d => d <=? t
  | None => false
  end.

(** Waiting on a connection: an expired deadline fails at once; a remote
    end that stays silent, or answers at or after the deadline, fails at
    the deadline; without a deadline a silent remote end blocks for
    ever. *)
Definition wait {A} (dline : option Z) (delay : option N) (k : T A) (fail : T A)
    : T A :=
  fun t =>
    if past dline t then fail t
    else match delay with
         | None =>
             match dline with
             | Some d => (sleep_until d ≫= fun _ => fail) t
             | None => block_forever t
             end
         | Some dl =>
             if past dline (t + Z.of_N dl)
             then (sleep_until (default 0 dline) ≫= fun _ => fail) t
             else (elapse dl ≫= fun _ => k) t
         end.

(** [conn.Read(p)]: at most [len(p)] bytes are stored. *)
Definition conn_Read (c : Conn) (n : nat) : T (list Byte.byte * option error * Conn) :=
  match peer_read (peer c) n with
  | RSilent =>
      wait (deadline c) None (mret ([], None, c)) (mret ([], Some timeoutError, c))
  | RResponds delay data err p =>
      wait (deadline c) (Some delay)
        (mret (take n data, err, mkConn p (deadline c)))
        (mret ([], Some timeoutError, c))
  end.

Global Instance Conn_Reader : Reader Conn := conn_Read.

Global Instance HBody_Reader : Reader HBody := fun b n =>
  r ← hbody_read b n;
  mret (take n (fst (fst r)), snd (fst r), snd r).

(** [conn.Write(b)]. *)
Definition conn_Write (c : Conn) (b : list Byte.byte) : T (option error * Conn) :=
  match peer_write (peer c) b with
  | WSilent => wait (deadline c) None (mret (None, c)) (mret (Some timeoutError, c))
  | WDone delay err p =>
      wait (deadline c) (Some delay)
        (mret (err, mkConn p (deadline c)))
        (mret (Some timeoutError, c))
  end.

Definition conn_SetDeadline (c : Conn) (t : Z) : Conn := mkConn (peer c) (Some t).

(** [net.DialTimeout]: a zero timeout is none, any other one bounds the
    connect by [now + timeout]. *)
Definition net_DialTimeout (network address : string) (timeout : Z) : T (Conn + error) :=
  t ← time_Now;
  let limit := if timeout =? 0 then None else Some (t + timeout) in
  match net_connect network address with
  | CSilent => wait limit None (mret (inr timeoutError)) (mret (inr timeoutError))
  | CDone delay r =>
      wait limit (Some delay)
        (mret (match r with
               | inl p => inl (mkConn p None)
               | inr e => inr e
               end))
        (mret (inr timeoutError))
  end.

End Fetching.

(** ** Package [io]: limited readers and [ReadAll] *)

(** [io.LimitedReader]: the underlying reader and the bytes remaining. *)
Record LimitedReader (R : Type) : Type := mkLimitedReader {
  lrR : R;
  lrN : Z;
}.
Arguments mkLimitedReader {R} lrR lrN.
Arguments lrR {R} l.
Arguments lrN {R} l.

Definition LimitReader {R} (r : R) (n : Z) : LimitedReader R := mkLimitedReader r n.

(** [LimitedReader.Read]: [EOF] once nothing remains, otherwise a read of
    the underlying reader into [p] cut down to the remaining count. *)
Global Instance LimitedReader_Reader {R} `{Reader R} : Reader (LimitedReader R) :=
  fun l n =>
    if lrN l <=? 0 then mret ([], Some EOF, l)
    else
      let n' := if lrN l <? Z.of_nat n then Z.to_nat (lrN l) else n in
      x ← Read (lrR l) n';
      mret (fst (fst x), snd (fst x),
            mkLimitedReader (snd x) (lrN l - Z.of_nat (length (fst (fst x))))).

(** [ioutil.ReadAll]: read into the free space of a growing buffer until an
    error; [EOF] is not reported as an error.  [space] is the free space
    offered to a read as a function of the bytes held so far. *)
Fixpoint readAll {R} `{Reader R} (space : nat -> nat) (fuel : nat) (r : R)
    (buf : list Byte.byte) : T (list Byte.byte * option error * R) :=
  match fuel with
  | O => block_forever
  | S fuel' =>
      x ← Read r (space (length buf));
      let buf' := buf ++ fst (fst x) in
      match snd (fst x) with
      | Some EOF => mret (buf', None, snd x)
      | Some err => mret (buf', Some err, snd x)
      | None => readAll space fuel' (snd x) buf'
      end
  end.

Section ClientCode.

Context `{Platform}.

Definition ioutil_ReadAll {R} `{Reader R} (fuel : nat) (r : R)
    : T (list Byte.byte * option error * R) :=
  readAll bufspace fuel r [].

(** [logError]: the type switch takes [syscall.Errno] first, then
    [net.Error], then the default. *)
Definition classify (e : error) : errClass :=
  match e with
  | Errno n => ClsErrno n
  | netError _ t tmp => ClsNet t tmp
  | _ => ClsUnknown
  end.

Definition logError (err : error) : M unit := emit (EvStderr (classify err) err).

(** [DefaultTimeoutDialer.Dial]. *)
Record DefaultTimeoutDialer : Type := mkDefaultTimeoutDialer {
  timeout : Z;
}.

Definition DefaultTimeoutDialer_Dial (c : DefaultTimeoutDialer) : DialFunc :=
  fun network address =>
    t ← time_Now;
    let deadline := t + timeout c in
    r ← net_DialTimeout network address (timeout c);
    match r with
    | inr err => mret (inr err)
    | inl conn => mret (inl (conn_SetDeadline conn deadline))
    end.

(** [NewClientWithProxy]; the calls to [log.Debugf] are left out. *)
Definition NewClientWithProxy (timeout : Z) (proxy : string) : Client :=
  let '(proxyFunc, dialFunc) :=
    if negb (String.eqb proxy EmptyString) then
      match url_Parse proxy with
      | inr err => (None, None)
      | inl proxyURL =>
          (Some proxyURL,
           Some (if String.eqb (strings.ToLower (Scheme proxyURL)) "socks5"
                 then socks_DialSocksProxyTimeout SOCKS5 (uHost proxyURL) timeout
                 else socks_DialSocksProxyTimeout SOCKS4 (uHost proxyURL) timeout))
      end
    else (None, Some (DefaultTimeoutDialer_Dial (mkDefaultTimeoutDialer timeout)))
  in
  let transport := mkTransport proxyFunc timeout timeout dialFunc in
  mkClient (mkHttpClient transport) dialFunc.

Definition NewClient (timeout : Z) : Client := NewClientWithProxy timeout EmptyString.

Definition DefaultClient : Client := NewClient DefaultTimeout.

(** [Client.Dial]: a call through [c.dialFunc]. *)
Definition Client_Dial (c : Client) (network address : string) : M (Conn + error) :=
  match dialFunc c with
  | None => panic nil_dereference
  | Some f => _ ← emit (EvDial network address); lift (f network address)
  end.

(** [http.NewRequest] for the two methods the package passes. *)
Definition http_NewRequest (method urlStr : string) (body : option (list Byte.byte))
    : HttpRequest + error :=
  match url_Parse urlStr with
  | inr err => inr err
  | inl u => inl (mkHttpRequest method u ∅ body)
  end.

Definition httpRequest (req : Request) : HttpRequest + error :=
  let r := if (0 <? length (Body req))%nat
           then http_NewRequest "POST" (URL req) (Some (Body req))
           else http_NewRequest "GET" (URL req) None in
  match r with
  | inr err => inr err
  | inl hreq =>
      inl (mkHttpRequest (Method hreq) (rURL hreq)
             (Header_Add (rHeader hreq) "Referer" (URL req)) (rBody hreq))
  end.

(** [c.httpClient.Do(hreq)]. *)
Definition httpClient_Do (hc : HttpClient) (hreq : HttpRequest)
    : M (HttpResponse + error) :=
  _ ← emit (EvDo hreq); lift (http_Do hc hreq).

Definition fetchWhois (fuel : nat) (c : Client) (req : Request)
    : M (option Response * option error) :=
  r ← Client_Dial c "tcp" (Host req +:+ ":43");
  match r with
  | inr err => mret (None, Some err)
  | inl conn =>
      out ← (_ ← emit (EvWrite (Body req));
             x ← lift (conn_Write conn (Body req));
             match fst x with
             | Some err => _ ← logError err; mret (None, Some err)
             | None =>
                 let res := NewResponse (Query req) (Host req) in
                 y ← lift (ioutil_ReadAll fuel (LimitReader (snd x) DefaultReadLimit));
                 let res := set_resBody (fst (fst y)) res in
                 match snd (fst y) with
                 | Some err => _ ← logError err; mret (None, Some err)
                 | None => mret (Some (DetectContentType EmptyString res), None)
                 end
             end);
      _ ← emit EvClose;
      mret out
  end.

Definition fetchHTTP (fuel : nat) (c : Client) (req : Request)
    : M (option Response * option error) :=
  match httpRequest req with
  | inr err => mret (None, Some err)
  | inl hreq =>
      r ← httpClient_Do (httpClient c) hreq;
      match r with
      | inr err => mret (None, Some err)
      | inl hres =>
          let res := NewResponse (Query req) (Host req) in
          y ← lift (ioutil_ReadAll fuel (LimitReader (hBody hres) DefaultReadLimit));
          let res := set_resBody (fst (fst y)) res in
          match snd (fst y) with
          | Some err => _ ← logError err; mret (None, Some err)
          | None =>
              mret (Some (DetectContentType
                            (Header_Get (hHeader hres) "Content-Type") res), None)
          end
      end
  end.

Definition Fetch (fuel : nat) (c : Client) (req : Request)
    : M (option Response * option error) :=
  if negb (String.eqb (URL req) EmptyString) then fetchHTTP fuel c req
  else fetchWhois fuel c req.

(** What the raw path may do after its dial, and what the HTTP path may
    do at all. *)
Definition raw_event (req : Request) (e : event) : Prop :=
  match e with
  | EvWrite b => b = Body req
  | EvClose => True
  | EvStderr _ _ => True
  | _ => False
  end.

Definition http_event (req : Request) (e : event) : Prop :=
  match e with
  | EvDo hreq => httpRequest req = inl hreq
  | EvStderr _ _ => True
  | _ => False
  end.

(** What a dial function has to promise for the budget to hold: it comes
    back within [tmo], and a connection it returns carries the deadline
    [start + tmo]. *)
Definition dials_within (tmo : Z) (f : DialFunc) : Prop :=
  forall network address t0 o t1,
    f network address t0 = (o, t1) ->
    t0 <= t1 <= t0 + tmo
    /\ match o with
       | Ret (inl conn) => deadline conn = Some (t0 + tmo)
       | Ret (inr _) => True
       | _ => False
       end.

End ClientCode.

(** The address the raw path dials. *)
Definition addr43 (req : Request) : string := Host req +:+ ":43".

(** ** whois.go: [Whois] *)

Section WhoisCode.

Context `{NetTypes}.
Context (zones : gmap string string) (servers : gmap string Server).
Context (defaultServer : Server) (NewRequest : string -> Request).

(** [req.Fetch()] is declared in a file that is not part of this
    development; [Whois] is verified for every such method. *)
Context (Request_Fetch : Request -> M (option Response * option error)).

Definition Whois (q : string) : M (string * option error) :=
  match Resolve zones servers defaultServer NewRequest q with
  | Panic msg => panic msg
  | OutOfFuel => lift block_forever
  | Ret (req, Some err) => mret (EmptyString, Some err)
  | Ret (req, None) =>
      r ← Request_Fetch req;
      match r with
      | (_, Some err) => mret (EmptyString, Some err)
      | (Some res, None) => mret (string_of_list_byte (resBody res), None)
      | (None, None) => panic nil_dereference
      end
  end.

End WhoisCode.

(** ** A small world to run the code in *)

(** A remote end that sends what it holds and then closes, or one that
    never says anything. *)
Inductive ExamplePeer : Type :=
  | Talks (data : list Byte.byte)
  | Mute.

(** An HTTP body: what is left of it, and whether the connection breaks at
    its end instead of closing. *)
Global Instance example_types : NetTypes := {|
  Peer := ExamplePeer;
  HBody := list Byte.byte * bool;
|}.

(** A stand-in for [url.Parse]: the scheme is what precedes the first
    colon, and a string that starts with a colon is rejected, as the real
    parser does ("missing protocol scheme"). *)
Definition example_Parse (s : string) : ParsedURL + error :=
  match strings.SplitN s ":" 2 with
  | [sch; rest] =>
      if String.eqb sch EmptyString
      then inr (errorString "missing protocol scheme")
      else inl (mkURL sch (match rest with
                           | String "/" (String "/" h) => h
                           | _ => rest
                           end) s)
  | _ => inl (mkURL EmptyString s s)
  end.

Definition refused : error := netError "connection refused" false false.
Definition reset : error := netError "connection reset by peer" false false.

Global Instance example_platform : Platform := {|
  peer_read p n :=
    match p with
    | Mute => RSilent
    | Talks [] => RResponds 0 [] (Some EOF) p
    | Talks data => RResponds 1000 (take n data) None (Talks (drop n data))
    end;
  peer_write p b := WDone 1000 None p;
  net_connect network address :=
    if String.eqb address "mute.example:43" then CDone 5000 (inl Mute)
    else if String.eqb address "down.example:43" then CDone 5000 (inr refused)
    else if String.eqb address "lost.example:43" then CSilent
    else CDone 5000 (inl (Talks (list_byte_of_string "No match for domain")));
  hbody_read b n :=
    mret (take n (fst b),
          if (0 <? length (fst b))%nat then None
          else if snd b then Some reset else Some EOF,
          (drop n (fst b), snd b));
  url_Parse := example_Parse;
  http_Do hc hreq :=
    mret (inl (mkHttpResponse {[ "Content-Type" := ["text/html"] ]}
                 (list_byte_of_string "<html>not found</html>",
                  String.eqb (uRaw (rURL hreq)) "http://broken.example/")));
  socks_DialSocksProxyTimeout v host timeout :=
    fun network address => mret (inr refused);
  sniff b := "text/plain; charset=utf-8";
  bufspace n := 512%nat;
|}.

Definition world0 : World := mkWorld 0 [].

Definition request_raw : Request :=
  mkRequest "example.com" "whois.example" EmptyString
    (list_byte_of_string ("example.com" +:+ CRLF)).

Definition request_to (host : string) : Request :=
  mkRequest "example.com" host EmptyString
    (list_byte_of_string ("example.com" +:+ CRLF)).

Definition request_url (u : string) : Request :=
  mkRequest "example.com" "whois.example" u [].

Definition request_http : Request :=
  mkRequest "foo.net.nr" "cenpac.net.nr"
    "http://cenpac.net.nr/dns/whois.html?subdomain=foo&tld=net.nr" [].

(** A sender that never stops: every read is filled to the brim. *)
Inductive Flood : Type := flood.

Global Instance Flood_Reader : Reader Flood :=
  fun r n => mret (repeat "x"%byte n, None, r).

(** * Properties *)

(** ** Sanity checks of the string and URL helpers *)

Example Split_abc : strings.Split "a.b.c" "." = ["a"; "b"; "c"].
Proof. reflexivity. Qed.
Example Split_empty : strings.Split EmptyString "." = [EmptyString].
Proof. reflexivity. Qed.
Example Split_trailing : strings.Split "foo." "." = ["foo"; EmptyString].
Proof. reflexivity. Qed.
Example SplitN_2 : strings.SplitN "foo.net.nr" "." 2 = ["foo"; "net.nr"].
Proof. reflexivity. Qed.
Example SplitN_nodot : strings.SplitN "localhost" "." 2 = ["localhost"].
Proof. reflexivity. Qed.
Example Join_bc : strings.Join ["b"; "c"] "." = "b.c".
Proof. reflexivity. Qed.
Example QueryEscape_plain : url.QueryEscape "net.nr" = "net.nr".
Proof. reflexivity. Qed.
Example QueryEscape_special : url.QueryEscape "a b&c" = "a+b%26c".
Proof. reflexivity. Qed.
Example Encode_sorted :
  url.Encode (url.Set_ (url.Set_ ∅ "tld" "nr") "subdomain" "x") = "subdomain=x&tld=nr".
Proof. vm_compute. reflexivity. Qed.
Example query_params_ex :
  query_params "http://h/p?subdomain=foo&tld=nr" = [("subdomain", "foo"); ("tld", "nr")].
Proof. reflexivity. Qed.

(** ** Splitting and joining *)

Lemma genSplit_nonempty sep n s : strings.genSplit sep n s <> [].
Proof.
  destruct s as [|c s]; simpl; [discriminate|].
  destruct (Ascii.eqb c sep).
  - destruct n; discriminate.
  - destruct (strings.genSplit sep n s); discriminate.
Qed.

Lemma Split_length_pos q sep : (0 < length (strings.Split q sep))%nat.
Proof.
  unfold strings.Split, strings.SplitN; simpl.
  pose proof (genSplit_nonempty sep (strings.Count q sep) q) as H.
  destruct (strings.genSplit sep (strings.Count q sep) q); [done | simpl; lia].
Qed.

(** Without the separator there is nothing to cut. *)
Lemma genSplit_no_sep sep n s :
  strings.ContainsByte s sep = false -> strings.genSplit sep n s = [s].
Proof.
  induction s as [|c s IH]; simpl; [done|].
  intros [Hc Hs]%orb_false_elim. rewrite Hc, (IH Hs). done.
Qed.

Lemma genSplit_no_cut sep s : strings.genSplit sep 0 s = [s].
Proof.
  induction s as [|c s IH]; simpl; [done|].
  destruct (Ascii.eqb c sep); [done|]. by rewrite IH.
Qed.

(** With one cut allowed, a string that holds the separator falls into the
    part before its first occurrence and the part after it. *)
Lemma genSplit_one_cut sep s :
  strings.ContainsByte s sep = true ->
  exists a b, strings.genSplit sep 1 s = [a; b]
              /\ s = a +:+ String sep b
              /\ strings.ContainsByte a sep = false.
Proof.
  induction s as [|c s IH]; simpl; [done|].
  destruct (Ascii.eqb c sep) eqn:Hc; simpl.
  - intros _. apply Ascii.eqb_eq in Hc as ->.
    exists EmptyString, s. by rewrite genSplit_no_cut.
  - intros (a & b & -> & -> & Ha)%IH.
    exists (String c a), b. simpl. rewrite Hc, Ha. done.
Qed.

Lemma set_Host_set_Host h h' req : set_Host h (set_Host h' req) = set_Host h req.
Proof. done. Qed.

(** ** Resolution *)

Section ResolutionFacts.

Context (zones : gmap string string) (servers : gmap string Server).
Context (defaultServer : Server) (NewRequest : string -> Request).

Local Abbreviation scan := (scan zones).
Local Abbreviation resolve := (Resolve zones servers defaultServer NewRequest).
Local Abbreviation customize := (customize servers defaultServer).

(** While every candidate misses, the loop runs to the end and leaves the
    zero value in [Host]. *)
Lemma scan_all_miss labels todo i req :
  (0 < todo)%nat ->
  (forall j, (i <= j < i + todo)%nat ->
             zones !! strings.Join (drop j labels) "." = None) ->
  scan labels todo i (req, false) = (set_Host EmptyString req, false).
Proof.
  revert i req. induction todo as [|todo IH]; intros i req Hpos Hmiss; [lia|].
  simpl. unfold zones_lookup. rewrite (Hmiss i) by lia.
  destruct todo as [|todo]; [done|].
  rewrite IH; [done | lia |]. intros j Hj. apply Hmiss. lia.
Qed.

(** The loop stops at the first candidate that is in the table. *)
Lemma scan_first_hit labels todo i k h req :
  (i <= k < i + todo)%nat ->
  zones !! strings.Join (drop k labels) "." = Some h ->
  (forall j, (i <= j < k)%nat ->
             zones !! strings.Join (drop j labels) "." = None) ->
  scan labels todo i (req, false) = (set_Host h req, true).
Proof.
  revert i req. induction todo as [|todo IH]; intros i req Hk Hhit Hmiss; [lia|].
  simpl. unfold zones_lookup.
  destruct (decide (i = k)) as [->|Hne].
  - rewrite Hhit. destruct todo; done.
  - rewrite (Hmiss i) by lia.
    rewrite (IH (S i)); [done | lia | done |].
    intros j Hj. apply Hmiss. lia.
Qed.

(** C1: Resolve splits the query on ['.'] and tries the suffixes
    [labels[i:]] joined by ['.'] for i = 0, 1, ..., the full query first
    and the last label alone last.  The first suffix found in the zone
    table (every more specific one being absent) gives [Request.Host]:
    the request handed to the server registered for that host, and
    returned with a nil error, has [Host] set from that entry. *)
Theorem Resolve_most_specific_first q i h :
  (i < length (strings.Split q "."))%nat ->
  zones !! strings.Join (drop i (strings.Split q ".")) "." = Some h ->
  (forall j, (j < i)%nat ->
             zones !! strings.Join (drop j (strings.Split q ".")) "." = None) ->
  scan (strings.Split q ".") (length (strings.Split q ".")) 0 (NewRequest q, false)
    = (set_Host h (NewRequest q), true)
  /\ Host (set_Host h (NewRequest q)) = h
  /\ resolve q = customize (set_Host h (NewRequest q)).
Proof.
  intros Hi Hhit Hmiss.
  assert (Hscan :
    scan (strings.Split q ".") (length (strings.Split q ".")) 0 (NewRequest q, false)
      = (set_Host h (NewRequest q), true)).
  { apply scan_first_hit with (k := i); [lia | done |].
    intros j Hj. apply Hmiss. lia. }
  split; [done|]. split; [done|].
  unfold Resolve. rewrite Hscan. done.
Qed.

(** C4: when no suffix of the query is in the zone table, Resolve returns
    a non-nil error together with the request built so far, whose [Host]
    is the empty string. *)
Theorem Resolve_no_match q :
  (forall i, (i < length (strings.Split q "."))%nat ->
             zones !! strings.Join (drop i (strings.Split q ".")) "." = None) ->
  exists req e,
    resolve q = Ret (req, Some e)
    /\ Host req = EmptyString
    /\ req = set_Host EmptyString (NewRequest q)
    /\ e = errors_New ("No whois server found for " +:+ q).
Proof.
  intros Hmiss.
  exists (set_Host EmptyString (NewRequest q)), (no_server q).
  split; [|done].
  unfold Resolve.
  rewrite scan_all_miss; [done | apply Split_length_pos |].
  intros j Hj. apply Hmiss. lia.
Qed.

End ResolutionFacts.

(** ** The Cenpac server *)

Lemma append_assoc s1 s2 s3 : (s1 +:+ s2) +:+ s3 = s1 +:+ s2 +:+ s3.
Proof.
  induction s1 as [|c s1 IH]; [reflexivity|].
  change (String c ((s1 +:+ s2) +:+ s3) = String c (s1 +:+ s2 +:+ s3)).
  by rewrite IH.
Qed.

Lemma Encode_subdomain_tld a b :
  url.Encode (url.Set_ (url.Set_ ∅ "subdomain" a) "tld" b)
  = "subdomain=" +:+ url.QueryEscape a +:+ "&tld=" +:+ url.QueryEscape b.
Proof.
  unfold url.Encode.
  assert (Hkeys : url.sortStrings
            (map fst (map_to_list (url.Set_ (url.Set_ ∅ "subdomain" a) "tld" b)))
          = ["subdomain"; "tld"]) by (vm_compute; reflexivity).
  rewrite Hkeys. unfold url.Set_. simpl foldl.
  rewrite lookup_insert_ne by done. rewrite !lookup_insert_eq. simpl.
  rewrite !append_assoc. reflexivity.
Qed.

Lemma SplitN_two s sep : strings.SplitN s sep 2 = strings.genSplit sep 1 s.
Proof. reflexivity. Qed.

(** A query with a dot: the form is asked for the part before the first
    dot as [subdomain] and everything after it as [tld]. *)
Lemma Cenpac_Resolve_dotted req a b :
  Query req = a +:+ String "." b ->
  strings.ContainsByte a "." = false ->
  Cenpac_Resolve req
  = Ret (mkRequest (Query req) (Host req)
           (cenpac_form +:+ "subdomain=" +:+ url.QueryEscape a
              +:+ "&tld=" +:+ url.QueryEscape b) [],
         None).
Proof.
  intros Hq Ha. unfold Cenpac_Resolve. rewrite SplitN_two.
  assert (Hdot : strings.ContainsByte (Query req) "." = true).
  { rewrite Hq. clear. induction a as [|c a IH]; [reflexivity|].
    change (Ascii.eqb c "." || strings.ContainsByte (a +:+ String "." b) "." = true).
    rewrite IH. apply orb_true_r. }
  destruct (genSplit_one_cut "." (Query req) Hdot) as (a' & b' & Hsplit & Hq' & Ha').
  assert (a' = a /\ b' = b) as [-> ->].
  { rewrite Hq in Hq'. clear -Hq' Ha Ha'.
    revert a' Hq' Ha'. induction a as [|c a IH]; intros [|c' a'] Hq' Ha'.
    - by inversion Hq'.
    - inversion Hq'; subst. simpl in Ha'. done.
    - inversion Hq'; subst. simpl in Ha. done.
    - inversion Hq'; subst. simpl in Ha, Ha'.
      apply orb_false_elim in Ha as [_ Ha]. apply orb_false_elim in Ha' as [_ Ha'].
      destruct (IH Ha a') as [-> ->]; done. }
  rewrite Hsplit. simpl. rewrite Encode_subdomain_tld. done.
Qed.
(** C10: Cenpac.Resolve reads [labels[1]] of [SplitN(Query, ".", 2)]
    without a bounds check.  A query without a dot gives a single label, so
    the access is out of range and the call panics; a query with a dot
    gives two labels and the call returns. *)
Theorem Cenpac_Resolve_needs_dot req :
  if strings.ContainsByte (Query req) "."
  then length (strings.SplitN (Query req) "." 2) = 2%nat
       /\ exists req', Cenpac_Resolve req = Ret (req', None)
  else length (strings.SplitN (Query req) "." 2) = 1%nat
       /\ index (strings.SplitN (Query req) "." 2) 1 = Panic index_out_of_range
       /\ Cenpac_Resolve req = Panic index_out_of_range.
Proof.
  destruct (strings.ContainsByte (Query req) ".") eqn:Hdot.
  - destruct (genSplit_one_cut "." (Query req) Hdot) as (a & b & Hsplit & Hq & Ha).
    split.
    + rewrite SplitN_two. by rewrite Hsplit.
    + eexists. by apply Cenpac_Resolve_dotted with (a := a) (b := b).
  - unfold Cenpac_Resolve. rewrite !SplitN_two.
    rewrite (genSplit_no_sep _ _ _ Hdot). done.
Qed.

(** C6, as the code has it: for the query foo.net.nr, whichever suffix
    leads to a host registered to Cenpac, the request comes back with an
    empty [Body] and a URL whose query parameters are [subdomain=foo] and
    [tld=net.nr]: the part after the first dot, not the last label. *)
Theorem Resolve_foo_net_nr zones servers defaultServer NewRequest i h :
  Query (NewRequest "foo.net.nr") = "foo.net.nr" ->
  (i < 3)%nat ->
  zones !! strings.Join (drop i ["foo"; "net"; "nr"]) "." = Some h ->
  (forall j, (j < i)%nat ->
             zones !! strings.Join (drop j ["foo"; "net"; "nr"]) "." = None) ->
  servers !! h = Some Cenpac ->
  exists req,
    Resolve zones servers defaultServer NewRequest "foo.net.nr" = Ret (req, None)
    /\ Host req = h
    /\ Body req = []
    /\ URL req = "http://cenpac.net.nr/dns/whois.html?subdomain=foo&tld=net.nr"
    /\ query_param (URL req) "subdomain" = Some "foo"
    /\ query_param (URL req) "tld" = Some "net.nr".
Proof.
  intros HQ Hi Hhit Hmiss Hsrv.
  unfold Resolve.
  change (strings.Split "foo.net.nr" ".") with ["foo"; "net"; "nr"].
  rewrite (scan_first_hit zones ["foo"; "net"; "nr"] 3 0 i h);
    [| lia | done | intros j Hj; apply Hmiss; lia].
  simpl negb. cbv iota. unfold customize, server_for. simpl Host.
  rewrite Hsrv. simpl.
  rewrite (Cenpac_Resolve_dotted _ "foo" "net.nr") by (simpl; done).
  simpl. eexists. split; [done|]. split; [done|]. split; [done|].
  split; [|split]; vm_compute; reflexivity.
Qed.

(** ** Resolution at concrete tables *)

(** The query a.b.c against a table that holds b.c and c: the full query
    misses, b.c is the first hit and gives the host. *)
Lemma Resolve_most_specific_first_witness :
  scan zones_bc (strings.Split "a.b.c" ".") (length (strings.Split "a.b.c" ".")) 0
       (NewRequest_spec "a.b.c", false)
    = (set_Host "whois.nic.b.c" (NewRequest_spec "a.b.c"), true)
  /\ Host (set_Host "whois.nic.b.c" (NewRequest_spec "a.b.c")) = "whois.nic.b.c"
  /\ Resolve zones_bc ∅ defaultServer_spec NewRequest_spec "a.b.c"
     = customize ∅ defaultServer_spec (set_Host "whois.nic.b.c" (NewRequest_spec "a.b.c")).
Proof.
  apply (Resolve_most_specific_first zones_bc ∅ defaultServer_spec NewRequest_spec
           "a.b.c" 1 "whois.nic.b.c").
  - simpl. lia.
  - vm_compute. reflexivity.
  - intros j Hj. assert (j = 0%nat) as -> by lia. vm_compute. reflexivity.
Defined.

Lemma Resolve_no_match_witness :
  exists req e,
    Resolve zones_bc ∅ defaultServer_spec NewRequest_spec "x.nonexistent" = Ret (req, Some e)
    /\ Host req = EmptyString
    /\ req = set_Host EmptyString (NewRequest_spec "x.nonexistent")
    /\ e = errors_New ("No whois server found for " +:+ "x.nonexistent").
Proof.
  apply (Resolve_no_match zones_bc ∅ defaultServer_spec NewRequest_spec "x.nonexistent").
  intros i Hi. simpl in Hi.
  destruct i as [|[|i]]; [vm_compute; reflexivity | vm_compute; reflexivity | lia].
Defined.

Lemma Resolve_foo_net_nr_witness :
  exists req,
    Resolve zones_nr (init ∅) defaultServer_spec NewRequest_spec "foo.net.nr" = Ret (req, None)
    /\ Host req = "cenpac.net.nr"
    /\ Body req = []
    /\ URL req = "http://cenpac.net.nr/dns/whois.html?subdomain=foo&tld=net.nr"
    /\ query_param (URL req) "subdomain" = Some "foo"
    /\ query_param (URL req) "tld" = Some "net.nr".
Proof.
  apply (Resolve_foo_net_nr zones_nr (init ∅) defaultServer_spec NewRequest_spec
           2 "cenpac.net.nr").
  - reflexivity.
  - lia.
  - vm_compute. reflexivity.
  - intros j Hj. destruct j as [|[|j]]; [vm_compute; reflexivity | vm_compute; reflexivity | lia].
  - vm_compute. reflexivity.
Defined.

(** C6 as the spec words it does not hold: resolved through the registry
    that [init] fills, the query foo.net.nr does not get [tld=nr]. *)
Lemma Resolve_foo_net_nr_tld_is_not_nr :
  ~ (exists req,
       Resolve zones_nr (init ∅) defaultServer_spec NewRequest_spec "foo.net.nr"
         = Ret (req, None)
       /\ Body req = []
       /\ query_param (URL req) "subdomain" = Some "foo"
       /\ query_param (URL req) "tld" = Some "nr").
Proof.
  intros (req & Hres & _ & _ & Htld).
  destruct Resolve_foo_net_nr_witness as (req' & Hres' & _ & _ & _ & _ & Htld').
  rewrite Hres' in Hres. inversion Hres; subst req'.
  rewrite Htld' in Htld. discriminate.
Qed.

(** ** Readers *)

Section ReaderFacts.

Context `{Platform}.

(** A wait ends in one of its two continuations, or never. *)
Lemma wait_cases {A} dline delay (k fail : T A) w :
  (exists w1, wait dline delay k fail w = k w1)
  \/ (exists w1, wait dline delay k fail w = fail w1)
  \/ wait dline delay k fail w = (OutOfFuel, w).
Proof.
  unfold wait. destruct (past dline w); [right; left; eauto|].
  destruct delay as [dl|].
  - destruct (past dline (w + Z.of_N dl)).
    + right; left. eexists. reflexivity.
    + left. eexists. reflexivity.
  - destruct dline as [d|].
    + right; left. eexists. reflexivity.
    + right; right. reflexivity.
Qed.

Ltac wait_split Hr :=
  match type of Hr with
  | wait ?d ?dl ?k ?f ?w = _ =>
      let w1 := fresh "w1" in
      let Hw := fresh "Hw" in
      destruct (wait_cases d dl k f w) as [[w1 Hw]|[[w1 Hw]|Hw]];
      rewrite Hw in Hr; clear Hw
  end.

Lemma Conn_fits : ReaderFits Conn.
Proof.
  intros c n w bs e c' w' Hr. unfold Read, Conn_Reader, conn_Read in Hr.
  destruct (peer_read (peer c) n) as [|delay data err p].
  - wait_split Hr; inversion Hr; subst; simpl; lia.
  - wait_split Hr; inversion Hr; subst; simpl; [|lia].
    rewrite length_take. lia.
Qed.

Lemma HBody_fits : ReaderFits HBody.
Proof.
  intros b n w bs e b' w' Hr. unfold Read, HBody_Reader in Hr.
  unfold mbind, T_bind in Hr. destruct (hbody_read b n w) as [[[[x y] z]| |] w1];
    inversion Hr; subst. rewrite length_take. lia.
Qed.

End ReaderFacts.

(** ** [io.LimitReader] and [ioutil.ReadAll] *)

Section LimitFacts.

Context {R : Type} `{Reader R}.
Hypothesis fits : ReaderFits R.

(** One read of a limited reader stores at most what remains and counts it
    off. *)
Lemma LimitedReader_Read_bound (l : LimitedReader R) n w bs e l' w' :
  Read l n w = (Ret (bs, e, l'), w') ->
  Z.of_nat (length bs) <= Z.max 0 (lrN l)
  /\ (length bs <= n)%nat
  /\ lrN l' = lrN l - Z.of_nat (length bs).
Proof.
  unfold Read at 1, LimitedReader_Reader.
  destruct (lrN l <=? 0) eqn:HN.
  - intros Hr. inversion Hr; subst. simpl. lia.
  - apply Z.leb_gt in HN. unfold mbind, T_bind.
    destruct (Read (lrR l) _ w) as [[[[bs1 e1] r1]| |] w1] eqn:Hr1;
      intros Hr; inversion Hr; subst; simpl.
    apply fits in Hr1.
    destruct (lrN l <? Z.of_nat n) eqn:Hlt;
      [apply Z.ltb_lt in Hlt | apply Z.ltb_ge in Hlt]; lia.
Qed.

(** However long the underlying reader goes on, [ReadAll] over a limited
    reader returns no more than the limit. *)
Lemma readAll_limited space fuel (l : LimitedReader R) buf w body e l' w' :
  readAll space fuel l buf w = (Ret (body, e, l'), w') ->
  Z.of_nat (length body) <= Z.of_nat (length buf) + Z.max 0 (lrN l).
Proof.
  revert l buf w. induction fuel as [|fuel IH]; intros l buf w; simpl; [done|].
  unfold mbind, T_bind.
  destruct (Read l (space (length buf)) w) as [[[[bs1 e1] l1]| |] w1] eqn:Hr1;
    [|done|done].
  apply LimitedReader_Read_bound in Hr1 as (Hb & _ & HN). simpl.
  destruct e1 as [[]|].
  1-4: intros Hr; inversion Hr; subst; rewrite length_app; lia.
  intros Hr. apply IH in Hr. rewrite length_app in Hr. lia.
Qed.

End LimitFacts.

(** ** Fetching *)

Lemma lift_inv {A} (m : T A) w o w' :
  lift m w = (o, w') -> m (now w) = (o, now w') /\ trace w' = trace w.
Proof.
  unfold lift. intros Hl. inversion Hl; subst; simpl.
  split; [|done]. by destruct (m (now w)).
Qed.

Lemma M_bind_inv {A B} (m : M A) (f : A -> M B) w b w' :
  (m ≫= f) w = (Ret b, w') ->
  exists a w1, m w = (Ret a, w1) /\ f a w1 = (Ret b, w').
Proof.
  unfold mbind, M_bind. destruct (m w) as [[a| |] w1]; [eauto|done|done].
Qed.

Lemma DefaultReadLimit_value : DefaultReadLimit = 1048576.
Proof. reflexivity. Qed.

Section FetchFacts.

Context `{Platform}.

(** What [fetchWhois] and [fetchHTTP] do with the outcome of [ReadAll]. *)
Lemma fetchWhois_inv fuel c req w res e w' :
  fetchWhois fuel c req w = (Ret (Some res, e), w') ->
  exists (conn : Conn) t body l t',
    ioutil_ReadAll fuel (LimitReader conn DefaultReadLimit) t = (Ret (body, None, l), t')
    /\ res = DetectContentType EmptyString
               (set_resBody body (NewResponse (Query req) (Host req)))
    /\ e = None.
Proof.
  unfold fetchWhois. intros Hf.
  apply M_bind_inv in Hf as ([conn|err] & w1 & Hd & Hf); [|by inversion Hf].
  apply M_bind_inv in Hf as (out & w2 & Hb & Hf).
  apply M_bind_inv in Hf as ([] & w3 & _ & Hf). inversion Hf; subst; clear Hf.
  apply M_bind_inv in Hb as ([] & w4 & _ & Hb).
  apply M_bind_inv in Hb as ([werr conn'] & w5 & Hw & Hb). simpl in Hb.
  destruct werr as [err|].
  { apply M_bind_inv in Hb as ([] & w6 & _ & Hb). by inversion Hb. }
  apply M_bind_inv in Hb as ([[body rerr] l] & w6 & Hr & Hb). simpl in Hb.
  apply lift_inv in Hr as [Hr _].
  destruct rerr as [err|].
  { apply M_bind_inv in Hb as ([] & w7 & _ & Hb). by inversion Hb. }
  inversion Hb; subst. eauto 10.
Qed.

Lemma fetchHTTP_inv fuel c req w res e w' :
  fetchHTTP fuel c req w = (Ret (Some res, e), w') ->
  exists hreq (hres : HttpResponse) t body l t',
    httpRequest req = inl hreq
    /\ ioutil_ReadAll fuel (LimitReader (hBody hres) DefaultReadLimit) t
       = (Ret (body, None, l), t')
    /\ res = DetectContentType (Header_Get (hHeader hres) "Content-Type")
               (set_resBody body (NewResponse (Query req) (Host req)))
    /\ e = None.
Proof.
  unfold fetchHTTP. intros Hf.
  destruct (httpRequest req) as [hreq|err]; [|by inversion Hf].
  apply M_bind_inv in Hf as ([hres|err] & w1 & Hd & Hf); [|by inversion Hf].
  apply M_bind_inv in Hf as ([[body rerr] l] & w2 & Hr & Hf). simpl in Hf.
  apply lift_inv in Hr as [Hr _].
  destruct rerr as [err|].
  { apply M_bind_inv in Hf as ([] & w3 & _ & Hf). by inversion Hf. }
  inversion Hf; subst. eauto 10.
Qed.

(** Whatever the remote end sends, on the raw path and on the HTTP path, a
    Response that Fetch returns holds at most [DefaultReadLimit] = 2^20
    bytes. *)
Theorem Fetch_body_limit fuel c req w res e w' :
  Fetch fuel c req w = (Ret (Some res, e), w') ->
  Z.of_nat (length (resBody res)) <= 1048576.
Proof.
  unfold Fetch. destruct (negb (String.eqb (URL req) EmptyString)); intros Hf.
  - apply fetchHTTP_inv in Hf as (hreq & hres & t & body & l & t' & _ & Hr & -> & _).
    apply (readAll_limited HBody_fits) in Hr.
    change (lrN _) with 1048576 in Hr. simpl length in *. lia.
  - apply fetchWhois_inv in Hf as (conn & t & body & l & t' & Hr & -> & _).
    apply (readAll_limited Conn_fits) in Hr.
    change (lrN _) with 1048576 in Hr. simpl length in *. lia.
Qed.

End FetchFacts.

Lemma Fetch_body_limit_witness :
  exists res e w',
    Fetch 10 (NewClient DefaultTimeout) request_raw world0 = (Ret (Some res, e), w')
    /\ Z.of_nat (length (resBody res)) <= 1048576.
Proof.
  eexists _, _, _. split; [vm_compute; reflexivity|].
  eapply (Fetch_body_limit 10 (NewClient DefaultTimeout) request_raw world0).
  vm_compute. reflexivity.
Defined.

Section RawPath.

Context `{Platform}.

(** The raw path, step by step: the dial, the write, the read. *)
Lemma fetchWhois_dial_fails fuel c req w f err t1 :
  dialFunc c = Some f ->
  f "tcp" (addr43 req) (now w) = (Ret (inr err), t1) ->
  fetchWhois fuel c req w
  = (Ret (None, Some err), mkWorld t1 (trace w ++ [EvDial "tcp" (addr43 req)])).
Proof.
  intros Hf Hd. unfold fetchWhois, Client_Dial. rewrite Hf.
  unfold mbind, M_bind, emit, lift. simpl. unfold addr43 in Hd. rewrite Hd. done.
Qed.

Lemma fetchWhois_write_fails fuel c req w f conn t1 err conn' t2 :
  dialFunc c = Some f ->
  f "tcp" (addr43 req) (now w) = (Ret (inl conn), t1) ->
  conn_Write conn (Body req) t1 = (Ret (Some err, conn'), t2) ->
  fetchWhois fuel c req w
  = (Ret (None, Some err),
     mkWorld t2 (trace w ++ [EvDial "tcp" (addr43 req); EvWrite (Body req);
                             EvStderr (classify err) err; EvClose])).
Proof.
  intros Hf Hd Hw. unfold fetchWhois, Client_Dial. rewrite Hf.
  unfold mbind, M_bind, emit, lift, logError, emit. simpl.
  unfold addr43 in Hd. rewrite Hd. simpl. rewrite Hw. simpl.
  by rewrite <- !app_assoc.
Qed.

Lemma fetchWhois_read_fails fuel c req w f conn t1 conn' t2 body err l t3 :
  dialFunc c = Some f ->
  f "tcp" (addr43 req) (now w) = (Ret (inl conn), t1) ->
  conn_Write conn (Body req) t1 = (Ret (None, conn'), t2) ->
  ioutil_ReadAll fuel (LimitReader conn' DefaultReadLimit) t2
    = (Ret (body, Some err, l), t3) ->
  fetchWhois fuel c req w
  = (Ret (None, Some err),
     mkWorld t3 (trace w ++ [EvDial "tcp" (addr43 req); EvWrite (Body req);
                             EvStderr (classify err) err; EvClose])).
Proof.
  intros Hf Hd Hw Hr. unfold fetchWhois, Client_Dial. rewrite Hf.
  unfold mbind, M_bind, emit, lift, logError, emit. simpl.
  unfold addr43 in Hd. rewrite Hd. simpl. rewrite Hw. simpl. rewrite Hr. simpl.
  by rewrite <- !app_assoc.
Qed.

Lemma fetchWhois_succeeds fuel c req w f conn t1 conn' t2 body l t3 :
  dialFunc c = Some f ->
  f "tcp" (addr43 req) (now w) = (Ret (inl conn), t1) ->
  conn_Write conn (Body req) t1 = (Ret (None, conn'), t2) ->
  ioutil_ReadAll fuel (LimitReader conn' DefaultReadLimit) t2
    = (Ret (body, None, l), t3) ->
  fetchWhois fuel c req w
  = (Ret (Some (DetectContentType EmptyString
                  (set_resBody body (NewResponse (Query req) (Host req)))), None),
     mkWorld t3 (trace w ++ [EvDial "tcp" (addr43 req); EvWrite (Body req); EvClose])).
Proof.
  intros Hf Hd Hw Hr. unfold fetchWhois, Client_Dial. rewrite Hf.
  unfold mbind, M_bind, emit, lift, logError, emit. simpl.
  unfold addr43 in Hd. rewrite Hd. simpl. rewrite Hw. simpl. rewrite Hr. simpl.
  by rewrite <- !app_assoc.
Qed.

End RawPath.

(** ** Which events a computation adds *)

Lemma only_ret {A} P (a : A) : only P (mret a).
Proof. intros w o w' Hm. inversion Hm; subst. exists []. by rewrite app_nil_r. Qed.

Lemma only_panic {A} P msg : only P (panic msg : M A).
Proof. intros w o w' Hm. inversion Hm; subst. exists []. by rewrite app_nil_r. Qed.

Lemma only_lift {A} P (m : T A) : only P (lift m).
Proof.
  intros w o w' Hm. apply lift_inv in Hm as [_ ->]. exists []. by rewrite app_nil_r.
Qed.

Lemma only_emit (P : event -> Prop) e : P e -> only P (emit e).
Proof. intros He w o w' Hm. inversion Hm; subst. exists [e]. simpl. auto. Qed.

Lemma only_bind {A B} P (m : M A) (f : A -> M B) :
  only P m -> (forall a, only P (f a)) -> only P (m ≫= f).
Proof.
  intros Hm Hf w o w'. unfold mbind, M_bind.
  destruct (m w) as [[a| |] w1] eqn:E; intros Hb.
  - destruct (Hm _ _ _ E) as (evs1 & E1 & H1).
    destruct (Hf a _ _ _ Hb) as (evs2 & E2 & H2).
    exists (evs1 ++ evs2). rewrite E2, E1, app_assoc. split; [done|].
    by apply Forall_app.
  - inversion Hb; subst. eauto.
  - inversion Hb; subst. eauto.
Qed.

Lemma only_weaken {A} (P Q : event -> Prop) (m : M A) :
  (forall e, P e -> Q e) -> only P m -> only Q m.
Proof.
  intros HPQ Hm w o w' E. destruct (Hm _ _ _ E) as (evs & -> & HF).
  exists evs. split; [done|]. eapply Forall_impl; eauto.
Qed.

Lemma emit_bind {B} e (g : unit -> M B) w :
  (emit e ≫= g) w = g tt (mkWorld (now w) (trace w ++ [e])).
Proof. reflexivity. Qed.

Lemma M_bind_assoc {A B C} (m : M A) (f : A -> M B) (g : B -> M C) w :
  ((m ≫= f) ≫= g) w = (m ≫= fun a => f a ≫= g) w.
Proof. unfold mbind, M_bind. by destruct (m w) as [[a| |] w1]. Qed.

Section Dispatch.

Context `{Platform}.

Lemma fetchHTTP_only fuel c req : only (http_event req) (fetchHTTP fuel c req).
Proof.
  unfold fetchHTTP. destruct (httpRequest req) as [hreq|err] eqn:Hq; [|apply only_ret].
  apply only_bind.
  - unfold httpClient_Do. apply only_bind; [|intros; apply only_lift].
    apply only_emit. simpl. congruence.
  - intros [hres|err]; [|apply only_ret].
    apply only_bind; [apply only_lift|]. intros y.
    destruct (snd (fst y)); [|apply only_ret].
    apply only_bind; [|intros; apply only_ret]. by apply only_emit.
Qed.

Lemma fetchWhois_body_only fuel req (conn : Conn) :
  only (raw_event req)
    (out ← (_ ← emit (EvWrite (Body req));
            x ← lift (conn_Write conn (Body req));
            match fst x with
            | Some err => _ ← logError err; mret (None, Some err)
            | None =>
                let res := NewResponse (Query req) (Host req) in
                y ← lift (ioutil_ReadAll fuel (LimitReader (snd x) DefaultReadLimit));
                let res := set_resBody (fst (fst y)) res in
                match snd (fst y) with
                | Some err => _ ← logError err; mret (None, Some err)
                | None => mret (Some (DetectContentType EmptyString res), None)
                end
            end);
     _ ← emit EvClose;
     mret out).
Proof.
  apply only_bind; [|intros; apply only_bind; [by apply only_emit|intros; apply only_ret]].
  apply only_bind; [by apply only_emit|]. intros _.
  apply only_bind; [apply only_lift|]. intros x.
  destruct (fst x).
  { apply only_bind; [by apply only_emit|intros; apply only_ret]. }
  apply only_bind; [apply only_lift|]. intros y.
  destruct (snd (fst y)); [|apply only_ret].
  apply only_bind; [by apply only_emit|intros; apply only_ret].
Qed.

(** Fetch goes to the HTTP transport exactly when [URL] is not empty: then
    it dials nothing, writes nothing and closes nothing itself, and the
    request it hands to the HTTP client is the one [httpRequest] builds.
    Otherwise it goes to the raw transport: its first act is a dial of
    ["tcp"] to [Host] followed by [":43"], it dials once, and it never
    calls the HTTP client. *)
Theorem Fetch_dispatch fuel c req w o w' :
  Fetch fuel c req w = (o, w') ->
  (URL req <> EmptyString ->
     exists evs, trace w' = trace w ++ evs /\ Forall (http_event req) evs)
  /\ (URL req = EmptyString ->
      match dialFunc c with
      | None => o = Panic nil_dereference /\ w' = w
      | Some f =>
          exists rest,
            trace w' = trace w ++ EvDial "tcp" (Host req +:+ ":43") :: rest
            /\ Forall (raw_event req) rest
      end).
Proof.
  unfold Fetch. intros Hf. split; intros Hu.
  - apply String.eqb_neq in Hu. rewrite Hu in Hf. simpl in Hf.
    by apply fetchHTTP_only in Hf.
  - apply String.eqb_eq in Hu. rewrite Hu in Hf. simpl in Hf.
    unfold fetchWhois, Client_Dial in Hf.
    destruct (dialFunc c) as [f|].
    + rewrite M_bind_assoc, emit_bind in Hf.
      assert (Ho : only (raw_event req)
                (lift (f "tcp" (Host req +:+ ":43")) ≫= fun r =>
                 match r with
                 | inr err => mret (None, Some err)
                 | inl conn =>
                     out ← (_ ← emit (EvWrite (Body req));
                            x ← lift (conn_Write conn (Body req));
                            match fst x with
                            | Some err => _ ← logError err; mret (None, Some err)
                            | None =>
                                let res := NewResponse (Query req) (Host req) in
                                y ← lift (ioutil_ReadAll fuel
                                            (LimitReader (snd x) DefaultReadLimit));
                                let res := set_resBody (fst (fst y)) res in
                                match snd (fst y) with
                                | Some err => _ ← logError err; mret (None, Some err)
                                | None =>
                                    mret (Some (DetectContentType EmptyString res), None)
                                end
                            end);
                     _ ← emit EvClose;
                     mret out
                 end)).
      { apply only_bind; [apply only_lift|].
        intros [conn|err]; [apply fetchWhois_body_only | apply only_ret]. }
      apply Ho in Hf as (evs & Ht & HF). exists evs.
      rewrite Ht. simpl. by rewrite <- app_assoc.
    + by inversion Hf.
Qed.

End Dispatch.

Section Outcomes.

Context `{Platform}.

(** After a dial that succeeded, every return of the raw path has closed
    the connection: the close is its last event and its only close, and
    the only thing between the write and the close is the line on standard
    error that goes with a failure. *)
Theorem Fetch_raw_closes fuel c req w f conn t1 r w' :
  URL req = EmptyString ->
  dialFunc c = Some f ->
  f "tcp" (addr43 req) (now w) = (Ret (inl conn), t1) ->
  Fetch fuel c req w = (Ret r, w') ->
  trace w' = trace w ++ [EvDial "tcp" (addr43 req); EvWrite (Body req); EvClose]
    /\ (exists res, r = (Some res, None))
  \/ exists err,
       trace w' = trace w ++ [EvDial "tcp" (addr43 req); EvWrite (Body req);
                              EvStderr (classify err) err; EvClose]
       /\ r = (None, Some err).
Proof.
  intros Hu Hf Hd. unfold Fetch. rewrite Hu. simpl.
  destruct (conn_Write conn (Body req) t1) as [[[[err|] conn']| |] t2] eqn:Hw.
  - rewrite (fetchWhois_write_fails _ _ _ _ _ _ _ _ _ _ Hf Hd Hw).
    intros Hr; inversion Hr; subst. right. eauto.
  - destruct (ioutil_ReadAll fuel (LimitReader conn' DefaultReadLimit) t2)
      as [[[[body [err|]] l]| |] t3] eqn:Hr.
    + rewrite (fetchWhois_read_fails _ _ _ _ _ _ _ _ _ _ _ _ _ Hf Hd Hw Hr).
      intros E; inversion E; subst. right. eauto.
    + rewrite (fetchWhois_succeeds _ _ _ _ _ _ _ _ _ _ _ _ Hf Hd Hw Hr).
      intros E; inversion E; subst. left. eauto.
    + unfold fetchWhois, Client_Dial. rewrite Hf.
      unfold mbind, M_bind, emit, lift, logError, emit. simpl.
      unfold addr43 in Hd. rewrite Hd. simpl. rewrite Hw. simpl. rewrite Hr. done.
    + unfold fetchWhois, Client_Dial. rewrite Hf.
      unfold mbind, M_bind, emit, lift, logError, emit. simpl.
      unfold addr43 in Hd. rewrite Hd. simpl. rewrite Hw. simpl. rewrite Hr. done.
  - unfold fetchWhois, Client_Dial. rewrite Hf.
    unfold mbind, M_bind, emit, lift, logError, emit. simpl.
    unfold addr43 in Hd. rewrite Hd. simpl. rewrite Hw. done.
  - unfold fetchWhois, Client_Dial. rewrite Hf.
    unfold mbind, M_bind, emit, lift, logError, emit. simpl.
    unfold addr43 in Hd. rewrite Hd. simpl. rewrite Hw. done.
Qed.

(** Of the Response and the error that Fetch returns, exactly one is
    nil, on either path. *)
Theorem Fetch_result_exclusive fuel c req w res e w' :
  Fetch fuel c req w = (Ret (res, e), w') ->
  (is_Some res /\ e = None) \/ (res = None /\ is_Some e).
Proof.
  unfold Fetch. destruct (negb (String.eqb (URL req) EmptyString)); intros Hf.
  - unfold fetchHTTP in Hf.
    destruct (httpRequest req) as [hreq|err]; [|inversion Hf; subst; eauto].
    apply M_bind_inv in Hf as ([hres|err] & w1 & Hd & Hf);
      [|inversion Hf; subst; eauto].
    apply M_bind_inv in Hf as ([[body rerr] l] & w2 & Hr & Hf). simpl in Hf.
    destruct rerr as [err|].
    + apply M_bind_inv in Hf as ([] & w3 & _ & Hf). inversion Hf; subst; eauto.
    + inversion Hf; subst; eauto.
  - unfold fetchWhois in Hf.
    apply M_bind_inv in Hf as ([conn|err] & w1 & Hd & Hf);
      [|inversion Hf; subst; eauto].
    apply M_bind_inv in Hf as (out & w2 & Hb & Hf).
    apply M_bind_inv in Hf as ([] & w3 & _ & Hf). inversion Hf; subst; clear Hf.
    apply M_bind_inv in Hb as ([] & w4 & _ & Hb).
    apply M_bind_inv in Hb as ([werr conn'] & w5 & Hw & Hb). simpl in Hb.
    destruct werr as [err|].
    { apply M_bind_inv in Hb as ([] & w6 & _ & Hb). inversion Hb; subst; eauto. }
    apply M_bind_inv in Hb as ([[body rerr] l] & w6 & Hr & Hb). simpl in Hb.
    destruct rerr as [err|].
    { apply M_bind_inv in Hb as ([] & w7 & _ & Hb). inversion Hb; subst; eauto. }
    inversion Hb; subst; eauto.
Qed.

(** The HTTP path, step by step. *)
Lemma fetchHTTP_read_fails fuel c req w hreq hres t1 body err l t2 :
  httpRequest req = inl hreq ->
  http_Do (httpClient c) hreq (now w) = (Ret (inl hres), t1) ->
  ioutil_ReadAll fuel (LimitReader (hBody hres) DefaultReadLimit) t1
    = (Ret (body, Some err, l), t2) ->
  fetchHTTP fuel c req w
  = (Ret (None, Some err),
     mkWorld t2 (trace w ++ [EvDo hreq; EvStderr (classify err) err])).
Proof.
  intros Hq Hd Hr. unfold fetchHTTP, httpClient_Do. rewrite Hq.
  unfold mbind, M_bind, emit, lift, logError, emit. simpl.
  rewrite Hd. simpl. rewrite Hr. simpl. by rewrite <- !app_assoc.
Qed.

Lemma fetchHTTP_succeeds fuel c req w hreq hres t1 body l t2 :
  httpRequest req = inl hreq ->
  http_Do (httpClient c) hreq (now w) = (Ret (inl hres), t1) ->
  ioutil_ReadAll fuel (LimitReader (hBody hres) DefaultReadLimit) t1
    = (Ret (body, None, l), t2) ->
  fetchHTTP fuel c req w
  = (Ret (Some (DetectContentType (Header_Get (hHeader hres) "Content-Type")
                  (set_resBody body (NewResponse (Query req) (Host req)))), None),
     mkWorld t2 (trace w ++ [EvDo hreq])).
Proof.
  intros Hq Hd Hr. unfold fetchHTTP, httpClient_Do. rewrite Hq.
  unfold mbind, M_bind, emit, lift, logError, emit. simpl.
  rewrite Hd. simpl. rewrite Hr. done.
Qed.

(** A failed read of the body leaves nothing of it: whatever [ReadAll] had
    collected on the raw path, Fetch returns the read error and a nil
    Response, after one line on standard error and the close. *)
Theorem Fetch_raw_read_error fuel c req w f conn t1 conn' t2 body err l t3 :
  URL req = EmptyString ->
  dialFunc c = Some f ->
  f "tcp" (addr43 req) (now w) = (Ret (inl conn), t1) ->
  conn_Write conn (Body req) t1 = (Ret (None, conn'), t2) ->
  ioutil_ReadAll fuel (LimitReader conn' DefaultReadLimit) t2
    = (Ret (body, Some err, l), t3) ->
  Fetch fuel c req w
  = (Ret (None, Some err),
     mkWorld t3 (trace w ++ [EvDial "tcp" (addr43 req); EvWrite (Body req);
                             EvStderr (classify err) err; EvClose])).
Proof.
  intros Hu Hf Hd Hw Hr. unfold Fetch. rewrite Hu. simpl.
  by rewrite (fetchWhois_read_fails _ _ _ _ _ _ _ _ _ _ _ _ _ Hf Hd Hw Hr).
Qed.

(** The same on the HTTP path: the read error and a nil Response, after
    one line on standard error. *)
Theorem Fetch_http_read_error fuel c req w hreq hres t1 body err l t2 :
  URL req <> EmptyString ->
  httpRequest req = inl hreq ->
  http_Do (httpClient c) hreq (now w) = (Ret (inl hres), t1) ->
  ioutil_ReadAll fuel (LimitReader (hBody hres) DefaultReadLimit) t1
    = (Ret (body, Some err, l), t2) ->
  Fetch fuel c req w
  = (Ret (None, Some err),
     mkWorld t2 (trace w ++ [EvDo hreq; EvStderr (classify err) err])).
Proof.
  intros Hu Hq Hd Hr.
  unfold Fetch. apply String.eqb_neq in Hu. rewrite Hu. simpl.
  by rewrite (fetchHTTP_read_fails _ _ _ _ _ _ _ _ _ _ _ Hq Hd Hr).
Qed.

(** A dial that fails ends the raw path there: the error comes back with a
    nil Response, and nothing was written or closed. *)
Theorem Fetch_raw_dial_error fuel c req w f err t1 :
  URL req = EmptyString ->
  dialFunc c = Some f ->
  f "tcp" (addr43 req) (now w) = (Ret (inr err), t1) ->
  Fetch fuel c req w
  = (Ret (None, Some err), mkWorld t1 (trace w ++ [EvDial "tcp" (addr43 req)])).
Proof.
  intros Hu Hf Hd. unfold Fetch. rewrite Hu. simpl.
  by apply fetchWhois_dial_fails with (f := f).
Qed.

(** A URL that does not parse ends the HTTP path before any I/O: the parse
    error comes back, the clock and the trace are untouched. *)
Theorem Fetch_http_bad_url fuel c req w err :
  URL req <> EmptyString ->
  url_Parse (URL req) = inr err ->
  Fetch fuel c req w = (Ret (None, Some err), w).
Proof.
  intros Hu Hp. unfold Fetch. apply String.eqb_neq in Hu. rewrite Hu. simpl.
  unfold fetchHTTP, httpRequest, http_NewRequest. rewrite Hp.
  by destruct (0 <? length (Body req))%nat.
Qed.

End Outcomes.

Section Requests.

Context `{Platform}.

Lemma Referer_canonical : textproto.CanonicalMIMEHeaderKey "Referer" = "Referer".
Proof. reflexivity. Qed.

(** The outbound HTTP request: it exists exactly when the URL parses; it is
    a POST carrying [Body] when [Body] is not empty and a GET without a
    payload otherwise; its target is the parsed [URL]; and its only header
    is one [Referer] whose value is the URL as given. *)
Theorem httpRequest_shape req :
  match url_Parse (URL req) with
  | inr err => httpRequest req = inr err
  | inl u =>
      exists hreq,
        httpRequest req = inl hreq
        /\ rURL hreq = u
        /\ Method hreq = (if (0 <? length (Body req))%nat then "POST" else "GET")
        /\ rBody hreq = (if (0 <? length (Body req))%nat then Some (Body req) else None)
        /\ rHeader hreq = {[ "Referer" := [URL req] ]}
        /\ Header_Get (rHeader hreq) "Referer" = URL req
  end.
Proof.
  unfold httpRequest, http_NewRequest.
  destruct (url_Parse (URL req)) as [u|err].
  - destruct (0 <? length (Body req))%nat; eexists; split; try reflexivity; simpl;
      unfold Header_Add, Header_Get; rewrite Referer_canonical;
      rewrite lookup_empty; simpl; rewrite insert_empty, lookup_singleton_eq; done.
  - by destruct (0 <? length (Body req))%nat.
Qed.

End Requests.

(** ** Deadlines *)

Section Deadlines.

Context `{Platform}.

(** A wait under a deadline [d] either goes through strictly before [d]
    or fails no later than [d] (at once, when [d] has passed). *)
Lemma wait_time {A} d delay (a b : A) t o t' :
  wait (Some d) delay (mret a) (mret b) t = (o, t') ->
  (o = Ret a /\ t <= t' < d) \/ (o = Ret b /\ t' = Z.max t d).
Proof.
  unfold wait; simpl.
  destruct (d <=? t) eqn:Hp; [apply Z.leb_le in Hp | apply Z.leb_gt in Hp].
  { intros E; inversion E; subst. right. split; [done|lia]. }
  destruct delay as [dl|].
  - destruct (d <=? t + Z.of_N dl) eqn:Hq;
      [apply Z.leb_le in Hq | apply Z.leb_gt in Hq];
      intros E; inversion E; subst.
    + right. split; [done|lia].
    + left. split; [done|lia].
  - intros E; inversion E; subst. right. split; [done|lia].
Qed.

Lemma conn_Read_time (c : Conn) d n t o t' :
  deadline c = Some d ->
  conn_Read c n t = (o, t') ->
  t <= t' <= Z.max t d
  /\ match o with
     | Ret (_, _, c') => deadline c' = Some d
     | _ => False
     end.
Proof.
  intros Hd. unfold conn_Read. rewrite Hd.
  destruct (peer_read (peer c) n) as [|delay data err p]; intros Hw;
    apply wait_time in Hw as [[-> Ht]|[-> Ht]]; simpl; (split; [lia|done]).
Qed.

Lemma conn_Write_time (c : Conn) d b t o t' :
  deadline c = Some d ->
  conn_Write c b t = (o, t') ->
  t <= t' <= Z.max t d
  /\ match o with
     | Ret (_, c') => deadline c' = Some d
     | _ => False
     end.
Proof.
  intros Hd. unfold conn_Write. rewrite Hd.
  destruct (peer_write (peer c) b) as [|delay err p]; intros Hw;
    apply wait_time in Hw as [[-> Ht]|[-> Ht]]; simpl; (split; [lia|done]).
Qed.

(** Reading all of a connection under a deadline never runs past it. *)
Lemma readAll_time space fuel (l : LimitedReader Conn) d buf t o t' :
  deadline (lrR l) = Some d ->
  readAll space fuel l buf t = (o, t') ->
  t <= t' <= Z.max t d.
Proof.
  revert l buf t. induction fuel as [|fuel IH]; intros l buf t Hd; simpl.
  { intros E; inversion E; subst. lia. }
  unfold mbind, T_bind. unfold Read at 1, LimitedReader_Reader.
  destruct (lrN l <=? 0).
  { simpl. intros E; inversion E; subst. lia. }
  unfold mbind, T_bind.
  destruct (Read (lrR l) _ t) as [o1 t1] eqn:Hr.
  apply (conn_Read_time _ d) in Hr as [Ht Ho]; [|done].
  destruct o1 as [[[bs e] c']| |]; [|done|done]. simpl.
  destruct e as [[]|]; try (intros E; inversion E; subst; lia).
  intros E. apply IH in E; [lia|done].
Qed.

Lemma readAll_conn_no_panic space fuel (l : LimitedReader Conn) d buf t o t' :
  deadline (lrR l) = Some d ->
  readAll space fuel l buf t = (o, t') ->
  forall msg, o <> Panic msg.
Proof.
  revert l buf t. induction fuel as [|fuel IH]; intros l buf t Hd; simpl.
  { intros E; inversion E; subst. done. }
  unfold mbind, T_bind. unfold Read at 1, LimitedReader_Reader.
  destruct (lrN l <=? 0).
  { simpl. intros E; inversion E; subst. done. }
  unfold mbind, T_bind.
  destruct (Read (lrR l) _ t) as [o1 t1] eqn:Hr.
  apply (conn_Read_time _ d) in Hr as [Ht Ho]; [|done].
  destruct o1 as [[[bs e] c']| |]; [|done|done]. simpl.
  destruct e as [[]|]; try (intros E; inversion E; subst; done).
  intros E. eapply IH; [|exact E]. exact Ho.
Qed.

Lemma net_DialTimeout_time network address tmo t0 o t1 :
  0 < tmo ->
  net_DialTimeout network address tmo t0 = (o, t1) ->
  t0 <= t1 <= t0 + tmo
  /\ match o with
     | Ret (inl conn) => t1 < t0 + tmo
     | Ret (inr _) => True
     | _ => False
     end.
Proof.
  intros Hpos. unfold net_DialTimeout, time_Now.
  unfold mbind, T_bind.
  destruct (tmo =? 0) eqn:Hz; [apply Z.eqb_eq in Hz; lia|].
  destruct (net_connect network address) as [|delay r]; intros Hw;
    apply wait_time in Hw as [[-> Ht]|[-> Ht]]; try (split; [lia|done]).
  destruct r; (split; [lia|]); [lia|done].
Qed.

(** The direct dialer with a positive timeout always comes back, no later
    than [timeout] after it was called.  A connection it returns was
    established strictly within the timeout and carries the absolute
    deadline [start + timeout], counted from the call and not from the
    end of the connect. *)
Theorem DefaultTimeoutDialer_Dial_deadline d network address t0 o t1 :
  0 < timeout d ->
  DefaultTimeoutDialer_Dial d network address t0 = (o, t1) ->
  t0 <= t1 <= t0 + timeout d
  /\ match o with
     | Ret (inl conn) => deadline conn = Some (t0 + timeout d) /\ t1 < t0 + timeout d
     | Ret (inr _) => True
     | _ => False
     end.
Proof.
  intros Hpos. unfold DefaultTimeoutDialer_Dial, time_Now.
  unfold mbind at 1 2, T_bind at 1 2.
  destruct (net_DialTimeout network address (timeout d) t0) as [o1 t'] eqn:Hd.
  apply net_DialTimeout_time in Hd as [Ht Ho]; [|done].
  destruct o1 as [[conn|err]| |]; [| |done|done];
    intros E; inversion E; subst; simpl; (split; [lia|done]).
Qed.

End Deadlines.

Section TimeBudget.

Context `{Platform}.

Lemma fetchWhois_time fuel c req w f tmo o w' :
  dialFunc c = Some f ->
  dials_within tmo f ->
  fetchWhois fuel c req w = (o, w') ->
  now w <= now w' <= now w + tmo
  /\ (forall msg, o <> Panic msg).
Proof.
  intros Hf Hspec. unfold fetchWhois, Client_Dial. rewrite Hf.
  unfold mbind, M_bind, emit, lift, logError, emit. simpl.
  destruct (f "tcp" (Host req +:+ ":43") (now w)) as [od t1] eqn:Hd.
  apply Hspec in Hd as [Ht1 Hod].
  destruct od as [[conn|err]| |]; [| |done|done]; simpl;
    [|intros E; inversion E; subst; simpl; split; [lia|done]].
  destruct (conn_Write conn (Body req) t1) as [ow t2] eqn:Hw.
  apply (conn_Write_time _ _ _ _ _ _ Hod) in Hw as [Ht2 How].
  destruct ow as [[[err|] conn']| |]; [| |done|done]; simpl;
    [intros E; inversion E; subst; simpl; split; [lia|done]|].
  destruct (ioutil_ReadAll fuel (LimitReader conn' DefaultReadLimit) t2)
    as [orr t3] eqn:Hr.
  pose proof (readAll_conn_no_panic bufspace fuel
                (LimitReader conn' DefaultReadLimit) (now w + tmo) [] t2 orr t3
                How Hr) as Hnp.
  apply (readAll_time _ _ _ (now w + tmo)) in Hr; [|done].
  destruct orr as [[[body [err|]] l]| |]; simpl;
    intros E; inversion E; subst; simpl; (split; [lia|try done]).
  by destruct (Hnp msg).
Qed.

Lemma DefaultTimeoutDialer_dials_within tmo :
  0 < tmo ->
  dials_within tmo (DefaultTimeoutDialer_Dial (mkDefaultTimeoutDialer tmo)).
Proof.
  intros Hpos network address t0 o t1.
  unfold DefaultTimeoutDialer_Dial, time_Now.
  unfold mbind at 1 2, T_bind at 1 2. simpl timeout.
  destruct (net_DialTimeout network address tmo t0) as [o1 t'] eqn:Hd.
  apply net_DialTimeout_time in Hd as [Ht Ho]; [|done].
  destruct o1 as [[conn|err]| |]; [| |done|done];
    intros E; inversion E; subst; simpl; (split; [lia|done]).
Qed.

(** The whole raw fetch of a client made by [NewClient] with a positive
    timeout stays within that one timeout, connect, write and reads
    together, and it never panics. *)
Theorem Fetch_raw_within_timeout tmo fuel req w o w' :
  0 < tmo ->
  URL req = EmptyString ->
  Fetch fuel (NewClient tmo) req w = (o, w') ->
  now w <= now w' <= now w + tmo
  /\ (forall msg, o <> Panic msg).
Proof.
  intros Hpos Hu. unfold Fetch. rewrite Hu. simpl.
  apply fetchWhois_time with (f := DefaultTimeoutDialer_Dial (mkDefaultTimeoutDialer tmo));
    [reflexivity|].
  by apply DefaultTimeoutDialer_dials_within.
Qed.

End TimeBudget.

Section Clients.

Context `{Platform}.

(** Every client that [NewClientWithProxy] builds dials the same way on
    both transports and waits the same time everywhere: the transport's
    [Dial] is the client's [dialFunc], and the TLS-handshake and
    response-header timeouts are the timeout given. *)
Theorem NewClientWithProxy_uniform tmo proxy :
  tDial (hTransport (httpClient (NewClientWithProxy tmo proxy)))
    = dialFunc (NewClientWithProxy tmo proxy)
  /\ TLSHandshakeTimeout (hTransport (httpClient (NewClientWithProxy tmo proxy))) = tmo
  /\ ResponseHeaderTimeout (hTransport (httpClient (NewClientWithProxy tmo proxy))) = tmo
  /\ (proxy = EmptyString ->
      NewClientWithProxy tmo proxy = NewClient tmo
      /\ Proxy (hTransport (httpClient (NewClientWithProxy tmo proxy))) = None
      /\ dialFunc (NewClientWithProxy tmo proxy)
         = Some (DefaultTimeoutDialer_Dial (mkDefaultTimeoutDialer tmo))).
Proof.
  assert (Hempty : proxy = EmptyString ->
            NewClientWithProxy tmo proxy = NewClient tmo) by (by intros ->).
  unfold NewClient in *. unfold NewClientWithProxy in *.
  destruct (negb (String.eqb proxy EmptyString)) eqn:Hp.
  - assert (Hne : proxy <> EmptyString) by (intros ->; discriminate Hp).
    destruct (url_Parse proxy) as [u|err]; simpl; (split; [done|]);
      (split; [done|]); (split; [done|]); intros E; by destruct Hne.
  - simpl. split; [done|]. split; [done|]. split; [done|]. intros E.
    split; [|done]. by subst.
Qed.

(** A proxy string that parses selects the SOCKS version by its scheme,
    compared without regard to case: [socks5] gives SOCKS5, every other
    scheme, and no scheme at all, gives SOCKS4; the dialer goes to the
    proxy's host with the client's timeout, and the HTTP transport is
    given the same proxy. *)
Theorem NewClientWithProxy_socks tmo proxy u :
  proxy <> EmptyString ->
  url_Parse proxy = inl u ->
  Proxy (hTransport (httpClient (NewClientWithProxy tmo proxy))) = Some u
  /\ dialFunc (NewClientWithProxy tmo proxy)
     = Some (socks_DialSocksProxyTimeout
               (if String.eqb (strings.ToLower (Scheme u)) "socks5" then SOCKS5 else SOCKS4)
               (uHost u) tmo).
Proof.
  intros Hp Hu. apply String.eqb_neq in Hp.
  unfold NewClientWithProxy. rewrite Hp, Hu. simpl.
  split; [done|]. by destruct (String.eqb _ "socks5").
Qed.

(** A proxy string that does not parse leaves the client without a dial
    function: the HTTP transport gets neither a proxy nor a [Dial], and a
    fetch over the raw path panics on the nil function before it does
    anything.  The client is not the one [NewClient] makes. *)
Theorem NewClientWithProxy_bad_proxy tmo proxy err fuel req w :
  proxy <> EmptyString ->
  url_Parse proxy = inr err ->
  URL req = EmptyString ->
  dialFunc (NewClientWithProxy tmo proxy) = None
  /\ tDial (hTransport (httpClient (NewClientWithProxy tmo proxy))) = None
  /\ Proxy (hTransport (httpClient (NewClientWithProxy tmo proxy))) = None
  /\ NewClientWithProxy tmo proxy <> NewClient tmo
  /\ Fetch fuel (NewClientWithProxy tmo proxy) req w = (Panic nil_dereference, w).
Proof.
  intros Hp Hu Hr. apply String.eqb_neq in Hp.
  unfold Fetch, fetchWhois, Client_Dial, NewClient, NewClientWithProxy.
  rewrite Hp, Hu, Hr. simpl. repeat split; try done.
Qed.

End Clients.

Section Silence.

Context `{Platform}.

Lemma wait_past {A} d delay (k fail : T A) t :
  d <= t -> wait (Some d) delay k fail t = fail t.
Proof. intros Hd. unfold wait. simpl. apply Z.leb_le in Hd. by rewrite Hd. Qed.

Lemma wait_in_time {A} d dl (k fail : T A) t :
  t + Z.of_N dl < d -> wait (Some d) (Some dl) k fail t = k (t + Z.of_N dl).
Proof.
  intros Hd. unfold wait. simpl.
  assert ((d <=? t) = false) as -> by (apply Z.leb_gt; lia).
  assert ((d <=? t + Z.of_N dl) = false) as -> by (apply Z.leb_gt; lia).
  reflexivity.
Qed.

Lemma wait_silent {A} d (k fail : T A) t :
  t < d -> wait (Some d) None k fail t = fail d.
Proof.
  intros Hd. unfold wait. simpl.
  assert ((d <=? t) = false) as -> by (apply Z.leb_gt; lia).
  unfold mbind, T_bind, sleep_until. f_equal. lia.
Qed.

(** The direct dialer on a remote end that accepts in time. *)
Lemma Dial_connects tmo network address dl p t0 :
  0 < tmo ->
  net_connect network address = CDone dl (inl p) ->
  Z.of_N dl < tmo ->
  DefaultTimeoutDialer_Dial (mkDefaultTimeoutDialer tmo) network address t0
  = (Ret (inl (mkConn p (Some (t0 + tmo)))), t0 + Z.of_N dl).
Proof.
  intros Hpos Hc Hdl. unfold DefaultTimeoutDialer_Dial, net_DialTimeout, time_Now.
  unfold mbind, T_bind. cbv beta iota zeta. cbn [timeout].
  assert ((tmo =? 0) = false) as -> by (apply Z.eqb_neq; lia).
  rewrite Hc. rewrite wait_in_time by lia. reflexivity.
Qed.

(** A remote end that accepts the connection, takes the query and then
    never answers: the fetch ends with a timeout error exactly [tmo] after
    it began, not [tmo] after the connect, with no Response; the error is
    reported as a timeout and the connection is closed. *)
Theorem Fetch_raw_silent_peer tmo fuel req w dl p wd p' :
  0 < tmo ->
  URL req = EmptyString ->
  net_connect "tcp" (addr43 req) = CDone dl (inl p) ->
  peer_write p (Body req) = WDone wd None p' ->
  (forall n, peer_read p' n = RSilent) ->
  Z.of_N dl + Z.of_N wd < tmo ->
  Fetch (S fuel) (NewClient tmo) req w
  = (Ret (None, Some timeoutError),
     mkWorld (now w + tmo)
       (trace w ++ [EvDial "tcp" (addr43 req); EvWrite (Body req);
                    EvStderr (ClsNet true true) timeoutError; EvClose])).
Proof.
  intros Hpos Hu Hc Hw Hr Hlt. unfold Fetch. rewrite Hu. simpl negb. cbv iota.
  apply (fetchWhois_read_fails (S fuel) (NewClient tmo) req w
           (DefaultTimeoutDialer_Dial (mkDefaultTimeoutDialer tmo))
           (mkConn p (Some (now w + tmo))) (now w + Z.of_N dl)
           (mkConn p' (Some (now w + tmo))) (now w + Z.of_N dl + Z.of_N wd)
           [] timeoutError
           (LimitReader (mkConn p' (Some (now w + tmo))) DefaultReadLimit)
           (now w + tmo)).
  - reflexivity.
  - apply Dial_connects; [done|done|lia].
  - unfold conn_Write. simpl. rewrite Hw. rewrite wait_in_time by lia. reflexivity.
  - unfold ioutil_ReadAll. simpl. unfold mbind, T_bind.
    unfold Read at 1, LimitedReader_Reader. simpl.
    unfold mbind, T_bind. unfold Read, Conn_Reader, conn_Read. simpl.
    rewrite Hr. rewrite wait_silent by lia. reflexivity.
Qed.

Lemma conn_Write_expired (c : Conn) d b t :
  deadline c = Some d -> d <= t ->
  conn_Write c b t = (Ret (Some timeoutError, c), t).
Proof.
  intros Hd Ht. unfold conn_Write. rewrite Hd.
  destruct (peer_write (peer c) b); by rewrite wait_past.
Qed.

Lemma Dial_nonpositive tmo network address t0 o t1 :
  tmo <= 0 ->
  DefaultTimeoutDialer_Dial (mkDefaultTimeoutDialer tmo) network address t0 = (o, t1) ->
  match o with
  | Ret (inl conn) => exists d, deadline conn = Some d /\ d <= t1
  | _ => True
  end.
Proof.
  intros Hle. unfold DefaultTimeoutDialer_Dial, net_DialTimeout, time_Now.
  unfold mbind, T_bind. cbv beta iota zeta. cbn [timeout].
  destruct (tmo =? 0) eqn:Hz; [apply Z.eqb_eq in Hz | apply Z.eqb_neq in Hz].
  - destruct (net_connect network address) as [|dl r]; unfold wait; simpl.
    + intros E; inversion E; subst. done.
    + destruct r as [p|err]; intros E; inversion E; subst; [|done].
      eexists. split; [reflexivity|]. lia.
  - destruct (net_connect network address) as [|dl r];
      rewrite wait_past by lia; intros E; inversion E; subst; done.
Qed.

(** With a zero or negative timeout the deadline set on the connection has
    passed by the time the connection exists (a zero timeout does not
    mean "no timeout" here): a client made by [NewClient] with such a
    timeout never gets a Response over the raw path. *)
Theorem Fetch_raw_nonpositive_timeout tmo fuel req w res e w' :
  tmo <= 0 ->
  URL req = EmptyString ->
  Fetch fuel (NewClient tmo) req w = (Ret (res, e), w') ->
  res = None /\ is_Some e.
Proof.
  intros Hle Hu. unfold Fetch. rewrite Hu.
  change (fetchWhois fuel (NewClient tmo) req w = (Ret (res, e), w') ->
          res = None /\ is_Some e).
  destruct (DefaultTimeoutDialer_Dial (mkDefaultTimeoutDialer tmo) "tcp"
              (addr43 req) (now w)) as [od t1] eqn:Hd.
  pose proof (Dial_nonpositive _ _ _ _ _ _ Hle Hd) as Hod.
  destruct od as [[conn|err]| |].
  - destruct Hod as (d & Hdl & Hpast).
    rewrite (fetchWhois_write_fails fuel (NewClient tmo) req w _ conn t1
               timeoutError conn t1 eq_refl Hd (conn_Write_expired _ _ _ _ Hdl Hpast)).
    intros E; inversion E; subst. eauto.
  - rewrite (fetchWhois_dial_fails fuel (NewClient tmo) req w _ err t1 eq_refl Hd).
    intros E; inversion E; subst. eauto.
  - unfold fetchWhois, Client_Dial. simpl dialFunc.
    unfold mbind, M_bind, emit, lift. simpl. unfold addr43 in Hd. rewrite Hd. done.
  - unfold fetchWhois, Client_Dial. simpl dialFunc.
    unfold mbind, M_bind, emit, lift. simpl. unfold addr43 in Hd. rewrite Hd. done.
Qed.

End Silence.

(** ** A sender that never stops *)

Section FloodFacts.

Context {R : Type} `{Reader R}.

(** Against a reader that fills every buffer it is given and never ends,
    [ReadAll] over [LimitReader(r, N)] still returns: after at most [N]
    reads it has exactly [N] bytes more than it started with, and reports
    no error. *)
Theorem readAll_flood (P : R -> Prop) space N fuel (r : R) buf t :
  (forall r n t, P r ->
     exists bs r' t', Read r n t = (Ret (bs, None, r'), t')
                      /\ length bs = n /\ P r') ->
  (forall k, (0 < space k)%nat) ->
  0 <= N ->
  P r ->
  (Z.to_nat N + 1 <= fuel)%nat ->
  exists body l t',
    readAll space fuel (LimitReader r N) buf t = (Ret (body, None, l), t')
    /\ Z.of_nat (length body) = Z.of_nat (length buf) + N.
Proof.
  intros Hflood Hspace. revert N r buf t.
  induction fuel as [|fuel IH]; intros N r buf t HN HP Hfuel; [lia|].
  simpl. unfold mbind, T_bind. unfold Read at 1, LimitedReader_Reader. simpl.
  destruct (N <=? 0) eqn:H0; [apply Z.leb_le in H0 | apply Z.leb_gt in H0].
  - simpl. eexists _, _, _. split; [reflexivity|]. rewrite app_nil_r. lia.
  - unfold mbind, T_bind.
    set (n' := if N <? Z.of_nat (space (length buf)) then Z.to_nat N
               else space (length buf)).
    assert (Hn' : (1 <= n')%nat /\ Z.of_nat n' <= N).
    { unfold n'. pose proof (Hspace (length buf)).
      destruct (N <? Z.of_nat (space (length buf))) eqn:Hlt;
        [apply Z.ltb_lt in Hlt | apply Z.ltb_ge in Hlt]; lia. }
    destruct (Hflood r n' t HP) as (bs & r' & t' & Hr & Hlen & HP').
    rewrite Hr. cbn [fst snd]. cbv beta iota zeta.
    destruct (IH (N - Z.of_nat (length bs)) r' (buf ++ bs) t')
      as (body & l & t'' & Hrec & Hbody); [lia | done | lia |].
    unfold LimitReader in Hrec. unfold mret, T_ret. cbn [fst snd].
    cbv beta iota zeta.
    exists body, l, t''. split; [exact Hrec|]. rewrite Hbody, length_app. lia.
Qed.

End FloodFacts.

Lemma readAll_flood_witness :
  exists body l t',
    readAll (fun _ => 2%nat) 6 (LimitReader flood 5) [] 0 = (Ret (body, None, l), t')
    /\ Z.of_nat (length body) = Z.of_nat (length (@nil Byte.byte)) + 5.
Proof.
  apply (readAll_flood (fun _ => True) (fun _ => 2%nat) 5 6 flood [] 0).
  - intros r n t _. eexists _, _, _. split; [reflexivity|].
    split; [apply repeat_length | done].
  - intros k. lia.
  - lia.
  - done.
  - simpl. lia.
Defined.

(** ** More on resolution *)

(** Joining what [genSplit] cut gives the string back, however many cuts
    were allowed. *)
Lemma Join_genSplit sep n s :
  strings.Join (strings.genSplit sep n s) (String sep EmptyString) = s.
Proof.
  revert n. induction s as [|c s IH]; intros n; [reflexivity|].
  simpl. destruct (Ascii.eqb c sep) eqn:Hc.
  - apply Ascii.eqb_eq in Hc as ->. destruct n as [|n]; [reflexivity|].
    pose proof (genSplit_nonempty sep n s) as Hne. specialize (IH n).
    destruct (strings.genSplit sep n s) as [|l ls]; [done|].
    change (strings.Join (EmptyString :: l :: ls) (String sep EmptyString))
      with (String sep (strings.Join (l :: ls) (String sep EmptyString))).
    by rewrite IH.
  - pose proof (genSplit_nonempty sep n s) as Hne. specialize (IH n).
    destruct (strings.genSplit sep n s) as [|l ls]; [done|].
    destruct ls as [|l' ls].
    + simpl in *. by rewrite IH.
    + change (strings.Join (String c l :: l' :: ls) (String sep EmptyString))
        with (String c (strings.Join (l :: l' :: ls) (String sep EmptyString))).
      by rewrite IH.
Qed.

Lemma Join_Split q sep : strings.Join (strings.Split q sep) (String sep EmptyString) = q.
Proof. apply Join_genSplit. Qed.

Section MoreResolution.

Context (zones : gmap string string) (servers : gmap string Server).
Context (defaultServer : Server) (NewRequest : string -> Request).

Local Abbreviation resolve := (Resolve zones servers defaultServer NewRequest).

(** The loop either misses everywhere or stops at a first hit. *)
Lemma scan_spec labels todo i :
  (forall j, (i <= j < i + todo)%nat ->
             zones !! strings.Join (drop j labels) "." = None)
  \/ exists k h, (i <= k < i + todo)%nat
       /\ zones !! strings.Join (drop k labels) "." = Some h
       /\ forall j, (i <= j < k)%nat ->
                    zones !! strings.Join (drop j labels) "." = None.
Proof.
  revert i. induction todo as [|todo IH]; intros i; [left; intros; lia|].
  destruct (zones !! strings.Join (drop i labels) ".") as [h|] eqn:Hi.
  - right. exists i, h. split; [lia|]. split; [done|]. intros; lia.
  - destruct (IH (S i)) as [Hmiss|(k & h & Hk & Hhit & Hmiss)].
    + left. intros j Hj. destruct (decide (j = i)) as [->|]; [done|].
      apply Hmiss. lia.
    + right. exists k, h. split; [lia|]. split; [done|].
      intros j Hj. destruct (decide (j = i)) as [->|]; [done|].
      apply Hmiss. lia.
Qed.

Lemma customize_no_error req r e :
  customize servers defaultServer req = Ret (r, Some e) -> False.
Proof.
  unfold customize. destruct (Resolve_ _ req) as [[r' e']| |]; simpl; [|done|done].
  intros E; inversion E.
Qed.

(** The only error Resolve ever returns is its own: it is returned exactly
    when no suffix of the query is in the zone table, with [Host] empty;
    an error of the server's [Resolve] never reaches the caller. *)
Theorem Resolve_only_error q req e :
  resolve q = Ret (req, Some e) <->
  (forall i, (i < length (strings.Split q "."))%nat ->
             zones !! strings.Join (drop i (strings.Split q ".")) "." = None)
  /\ req = set_Host EmptyString (NewRequest q)
  /\ e = errors_New ("No whois server found for " +:+ q).
Proof.
  unfold Resolve.
  destruct (scan_spec (strings.Split q ".") (length (strings.Split q ".")) 0)
    as [Hmiss|(k & h & Hk & Hhit & Hmiss)].
  - rewrite scan_all_miss; [| apply Split_length_pos | done]. simpl. split.
    + intros E; inversion E; subst. split; [|done]. intros i Hi. apply Hmiss. lia.
    + by intros (_ & -> & ->).
  - rewrite (scan_first_hit zones _ _ 0 k h) by (done || lia). simpl. split.
    + by intros E%customize_no_error.
    + intros (Hall & _). rewrite Hall in Hhit by lia. done.
Qed.

(** A zone entry for the query itself wins over every shorter suffix. *)
Theorem Resolve_exact_match q h :
  zones !! q = Some h ->
  resolve q = customize servers defaultServer (set_Host h (NewRequest q)).
Proof.
  intros Hq. unfold Resolve.
  rewrite (scan_first_hit zones _ _ 0 0 h).
  - done.
  - pose proof (Split_length_pos q "."). lia.
  - rewrite drop_0. change "."%string with (String "." EmptyString).
    by rewrite Join_Split.
  - intros; lia.
Qed.

(** What the server's [Resolve] returns as its error is dropped: when the
    query has a zone, Resolve returns the request as the server left it,
    with a nil error, whether the server reported an error or not; and a
    panic of the server goes through. *)
Theorem Resolve_server_outcome q i h :
  (i < length (strings.Split q "."))%nat ->
  zones !! strings.Join (drop i (strings.Split q ".")) "." = Some h ->
  (forall j, (j < i)%nat ->
             zones !! strings.Join (drop j (strings.Split q ".")) "." = None) ->
  match Resolve_ (default defaultServer (servers !! h)) (set_Host h (NewRequest q)) with
  | Ret (req', _) => resolve q = Ret (req', None)
  | Panic msg => resolve q = Panic msg
  | OutOfFuel => resolve q = OutOfFuel
  end.
Proof.
  intros Hi Hhit Hmiss. unfold Resolve.
  rewrite (scan_first_hit zones _ _ 0 i h);
    [| lia | done | intros j Hj; apply Hmiss; lia].
  simpl. unfold customize, server_for. simpl.
  by destruct (Resolve_ _ _) as [[req' e]| |].
Qed.

End MoreResolution.

(** A query without a dot whose zone leads to the Cenpac server makes
    Resolve itself panic with an index out of range. *)
Theorem Resolve_dotless_Cenpac_panics zones servers defaultServer NewRequest q h :
  Query (NewRequest q) = q ->
  strings.ContainsByte q "." = false ->
  zones !! q = Some h ->
  servers !! h = Some Cenpac ->
  Resolve zones servers defaultServer NewRequest q = Panic index_out_of_range.
Proof.
  intros HQ Hdot Hz Hs. unfold Resolve.
  rewrite (scan_first_hit zones _ _ 0 0 h).
  - simpl. unfold customize, server_for. simpl. rewrite Hs. simpl.
    unfold Cenpac_Resolve. rewrite !SplitN_two. simpl Query. rewrite HQ.
    by rewrite (genSplit_no_sep _ _ _ Hdot).
  - pose proof (Split_length_pos q "."). lia.
  - rewrite drop_0. change "."%string with (String "." EmptyString).
    by rewrite Join_Split.
  - intros; lia.
Qed.

(** For every query with a dot, Cenpac.Resolve cuts at the first dot only:
    the URL is the form's address followed by [subdomain=], the escaped
    part before the first dot, [&tld=] and the escaped rest; [Body] is
    cleared, [Query] and [Host] are kept, and the error is nil. *)
Theorem Cenpac_Resolve_url req :
  strings.ContainsByte (Query req) "." = true ->
  exists a b,
    Query req = a +:+ String "." b
    /\ strings.ContainsByte a "." = false
    /\ Cenpac_Resolve req
       = Ret (mkRequest (Query req) (Host req)
                ("http://cenpac.net.nr/dns/whois.html?subdomain=" +:+ url.QueryEscape a
                   +:+ "&tld=" +:+ url.QueryEscape b) [],
              None).
Proof.
  intros Hdot.
  destruct (genSplit_one_cut "." (Query req) Hdot) as (a & b & _ & Hq & Ha).
  exists a, b. split; [done|]. split; [done|].
  rewrite (Cenpac_Resolve_dotted req a b Hq Ha). unfold cenpac_form.
  by rewrite <- append_assoc.
Qed.

(** server.go, [register]: afterwards every name given leads to the
    server, and every other name leads where it led before. *)
Theorem register_lookup server names Servers name :
  register server names Servers !! name
  = if bool_decide (name ∈ names) then Some server else Servers !! name.
Proof.
  unfold register. revert Servers.
  induction names as [|n names IH]; intros Servers; cbn [foldl].
  - case_bool_decide as Hin; [by apply elem_of_nil in Hin|done].
  - rewrite IH. destruct (decide (name = n)) as [->|Hne].
    + rewrite lookup_insert_eq.
      rewrite (bool_decide_eq_true_2 (n ∈ n :: names)) by set_solver.
      by case_bool_decide.
    + rewrite lookup_insert_ne by done.
      by rewrite (bool_decide_ext (name ∈ n :: names) (name ∈ names)) by set_solver.
Qed.

(** ** The Cenpac URL cannot be bent by the query *)

Lemma ContainsByte_app a b c :
  strings.ContainsByte (a +:+ b) c = strings.ContainsByte a c || strings.ContainsByte b c.
Proof.
  induction a as [|x a IH]; [reflexivity|].
  change (Ascii.eqb x c || strings.ContainsByte (a +:+ b) c
          = (Ascii.eqb x c || strings.ContainsByte a c) || strings.ContainsByte b c).
  rewrite IH. apply orb_assoc.
Qed.

Lemma Count_app a b c :
  strings.Count (a +:+ b) c = (strings.Count a c + strings.Count b c)%nat.
Proof.
  induction a as [|x a IH]; [reflexivity|].
  change (((if Ascii.eqb x c then 1 else 0) + strings.Count (a +:+ b) c
           = (if Ascii.eqb x c then 1 else 0) + strings.Count a c + strings.Count b c)%nat).
  rewrite IH. lia.
Qed.

Lemma Count_absent a c : strings.ContainsByte a c = false -> strings.Count a c = 0%nat.
Proof.
  induction a as [|x a IH]; [done|]. simpl.
  intros [-> Ha]%orb_false_elim. by rewrite IH.
Qed.

(** A cut at the first separator. *)
Lemma genSplit_app sep n a b :
  strings.ContainsByte a sep = false ->
  strings.genSplit sep (S n) (a +:+ String sep b) = a :: strings.genSplit sep n b.
Proof.
  induction a as [|x a IH]; intros Ha.
  - change (strings.genSplit sep (S n) (String sep b) = EmptyString :: strings.genSplit sep n b).
    simpl. by rewrite Ascii.eqb_refl.
  - simpl in Ha. apply orb_false_elim in Ha as [Hx Ha].
    change (strings.genSplit sep (S n) (String x (a +:+ String sep b))
            = String x a :: strings.genSplit sep n b).
    simpl. rewrite Hx. by rewrite (IH Ha).
Qed.

Lemma QueryEscape_cons c s :
  url.QueryEscape (String c s) = url.QueryEscape (String c EmptyString) +:+ url.QueryEscape s.
Proof.
  simpl. destruct (Ascii.eqb c " "); [reflexivity|].
  destruct (url.shouldEscape c); reflexivity.
Qed.

(** The bytes that structure a query string never come out of
    [QueryEscape]. *)
Lemma QueryEscape_safe s :
  strings.ContainsByte (url.QueryEscape s) "&" = false
  /\ strings.ContainsByte (url.QueryEscape s) "=" = false
  /\ strings.ContainsByte (url.QueryEscape s) "?" = false.
Proof.
  induction s as [|c s (IH1 & IH2 & IH3)]; [done|].
  rewrite QueryEscape_cons, !ContainsByte_app, IH1, IH2, IH3, !orb_false_r.
  destruct c as [[] [] [] [] [] [] [] []]; vm_compute; done.
Qed.

Lemma Split_two sep a b :
  strings.ContainsByte a sep = false ->
  strings.ContainsByte b sep = false ->
  strings.Split (a +:+ String sep b) sep = [a; b].
Proof.
  intros Ha Hb. unfold strings.Split, strings.SplitN. simpl.
  rewrite Count_app, (Count_absent _ _ Ha). simpl.
  rewrite Ascii.eqb_refl, (Count_absent _ _ Hb). simpl.
  rewrite genSplit_app by done. by rewrite genSplit_no_cut.
Qed.

Lemma SplitN_two_cut sep a b :
  strings.ContainsByte a sep = false ->
  strings.SplitN (a +:+ String sep b) sep 2 = [a; b].
Proof.
  intros Ha. rewrite SplitN_two, genSplit_app by done. by rewrite genSplit_no_cut.
Qed.

(** Whatever bytes the query holds, the URL that Cenpac.Resolve builds
    carries exactly two parameters, [subdomain] and [tld]: a [&], [=] or
    [?] in the query is escaped and cannot add, drop or rename one. *)
Theorem Cenpac_Resolve_two_params req a b :
  Query req = a +:+ String "." b ->
  strings.ContainsByte a "." = false ->
  exists req',
    Cenpac_Resolve req = Ret (req', None)
    /\ query_params (URL req')
       = [("subdomain", url.QueryEscape a); ("tld", url.QueryEscape b)].
Proof.
  intros Hq Ha. eexists. split; [by apply Cenpac_Resolve_dotted|].
  simpl URL. unfold query_params, cenpac_form.
  destruct (QueryEscape_safe a) as (Ha1 & Ha2 & Ha3).
  destruct (QueryEscape_safe b) as (Hb1 & Hb2 & Hb3).
  change ("http://cenpac.net.nr/dns/whois.html?" +:+ "subdomain=" +:+ url.QueryEscape a
            +:+ "&tld=" +:+ url.QueryEscape b)
    with ("http://cenpac.net.nr/dns/whois.html"
            +:+ String "?" ("subdomain=" +:+ url.QueryEscape a
                              +:+ "&tld=" +:+ url.QueryEscape b)).
  rewrite SplitN_two_cut by reflexivity.
  change ("subdomain=" +:+ url.QueryEscape a +:+ "&tld=" +:+ url.QueryEscape b)
    with ("subdomain=" +:+ url.QueryEscape a +:+ String "&" ("tld=" +:+ url.QueryEscape b)).
  rewrite <- append_assoc.
  rewrite Split_two.
  - simpl map. rewrite !genSplit_no_cut. reflexivity.
  - by rewrite ContainsByte_app, Ha1.
  - by rewrite ContainsByte_app, Hb1.
Qed.

(** ** [Whois] *)

Section WhoisFacts.

Context `{NetTypes}.
Context (zones : gmap string string) (servers : gmap string Server).
Context (defaultServer : Server) (NewRequest : string -> Request).
Context (Request_Fetch : Request -> M (option Response * option error)).

Local Abbreviation whois := (Whois zones servers defaultServer NewRequest Request_Fetch).

(** When no suffix of the query has a zone, Whois returns the empty string
    and the resolution error without fetching anything: the clock and the
    trace are as they were, whatever the fetch would have done. *)
Theorem Whois_no_server q w :
  (forall i, (i < length (strings.Split q "."))%nat ->
             zones !! strings.Join (drop i (strings.Split q ".")) "." = None) ->
  whois q w
  = (Ret (EmptyString, Some (errors_New ("No whois server found for " +:+ q))), w).
Proof.
  intros Hmiss. unfold Whois, Resolve.
  rewrite scan_all_miss; [done | apply Split_length_pos |].
  intros j Hj. apply Hmiss. lia.
Qed.

(** What Whois returns: with an error the string is empty; without one it
    is the body of the Response that the fetch of the resolved request
    returned, byte for byte. *)
Theorem Whois_returns q w s e w' :
  whois q w = (Ret (s, e), w') ->
  match e with
  | Some err => s = EmptyString
  | None =>
      exists req res,
        Resolve zones servers defaultServer NewRequest q = Ret (req, None)
        /\ Request_Fetch req w = (Ret (Some res, None), w')
        /\ s = string_of_list_byte (resBody res)
  end.
Proof.
  unfold Whois.
  destruct (Resolve zones servers defaultServer NewRequest q) as [[req [err|]]| |].
  - intros E; inversion E; subst. done.
  - unfold mbind, M_bind.
    destruct (Request_Fetch req w) as [[[[res|] [err|]]| |] w1] eqn:Hf;
      intros E; inversion E; subst; try done.
    exists req, res. done.
  - intros E; inversion E.
  - intros E. unfold lift, block_forever in E. inversion E.
Qed.

End WhoisFacts.
